(** * KokkosBlas::Impl: dot, nrm2_squared and fill for multivectors

    A shallow embedding of [src/impl/Kokkos_Blas1_MV_impl.hpp]: the
    reduction functors ([V_Dot_Functor], [MV_Dot_Right_FunctorVector],
    [MV_Dot_Right_FunctorUnroll], [MV_Nrm2Squared_Right_FunctorVector]),
    the fill functor ([MV_FillFunctor]) and the three dispatchers
    ([Dot_MV::dot] in its two overloads, [Nrm2_MV::nrm2_squared],
    [Fill_MV::fill]), followed by the properties of the specification
    that concern them, and by further properties of the same code.  The
    single-vector functors that no dispatcher of the file instantiates
    ([V_FillFunctor], [V_Nrm2Squared_Functor] and its partial
    specialization for [double]) are embedded as well.  The declarations
    of the full specializations, whose bodies are elsewhere, are left
    out. *)

From Stdlib Require Import ZArith List Lia Bool Permutation.
From Stdlib Require Import Floats.PrimFloat.
From Stdlib Require Floats.SpecFloat Floats.FloatAxioms Floats.FloatOps.
Import ListNotations.
Local Open Scope Z_scope.

(* ================================================================== *)
(** * Index types *)
(* ================================================================== *)

(** [INT_MAX] of <climits>, for the 32-bit [int] of the supported
    platforms. *)
Definition INT_MAX : Z := 2147483647.

(** The [SizeType] template argument of the functors and the index type
    of a [Kokkos::RangePolicy]: either [int] or the view's
    [XMV::size_type]. *)
Inductive SizeType : Type :=
| ST_int
| ST_size_type.

(** [XMV::size_type] is an unsigned integer type whose declaration lives
    in Kokkos; its width in bits is the parameter [w] of everything
    below (64 for host spaces, 32 for spaces whose size type is
    [unsigned int]).  Arithmetic in it is modulo [2^w]. *)
Definition wrap_size (w x : Z) : Z := x mod 2 ^ w.

(** Conversion of an integer value to [int]: the value modulo [2^32],
    read as a two's complement number. *)
Definition to_int (x : Z) : Z := (x + 2 ^ 31) mod 2 ^ 32 - 2 ^ 31.

Definition static_cast (w : Z) (t : SizeType) (x : Z) : Z :=
  match t with
  | ST_int => to_int x
  | ST_size_type => wrap_size w x
  end.

(** The condition that guards the [int] branch in [Fill_MV::fill],
    [Nrm2_MV::nrm2_squared] and the single-pair [Dot_MV::dot]:
<<
    numRows < static_cast<size_type> (INT_MAX) &&
    numRows * numCols < static_cast<size_type> (INT_MAX)
>>
    Both operands of the product have type [size_type], so the product
    is taken modulo [2^w]. *)
Definition index_range_check (w numRows numCols : Z) : bool :=
  (numRows <? static_cast w ST_size_type INT_MAX)
  && (wrap_size w (numRows * numCols) <? static_cast w ST_size_type INT_MAX).

(* ================================================================== *)
(** * Scalar traits *)
(* ================================================================== *)

(** [Kokkos::Details::InnerProductSpaceTraits<xvalue_type>] together with
    the [ArithTraits] of its [dot_type] and [mag_type].  The header that
    declares them is not part of the file embedded here, so the functors
    are written against this interface, as the templates are.  For a
    complex scalar type [IPT::dot] is the conjugate-linear product and
    [IPT::norm] the modulus; the functors never look inside them. *)
Class InnerProductSpaceTraits (xvalue_type : Type) : Type := {
  dot_type : Type;
  mag_type : Type;
  (** [IPT::dot (x, y)] *)
  IPT_dot : xvalue_type -> xvalue_type -> dot_type;
  (** [IPT::norm (x)] *)
  IPT_norm : xvalue_type -> mag_type;
  (** [ArithTraits<dot_type>::zero ()] and [+=] on [dot_type] *)
  dot_zero : dot_type;
  dot_plus : dot_type -> dot_type -> dot_type;
  (** [ArithTraits<mag_type>::zero ()], [+=] and [*] on [mag_type] *)
  mag_zero : mag_type;
  mag_plus : mag_type -> mag_type -> mag_type;
  mag_times : mag_type -> mag_type -> mag_type
}.

(** Modelled from the spec: the traits of a real scalar type with exact
    arithmetic (the inner product is the plain product, the magnitude the
    absolute value), here the integers: [dot (x, y) = x * y],
    [norm (x) = |x|]. *)
#[export] Instance Z_traits : InnerProductSpaceTraits Z := {|
  dot_type := Z;
  mag_type := Z;
  IPT_dot := Z.mul;
  IPT_norm := Z.abs;
  dot_zero := 0;
  dot_plus := Z.add;
  mag_zero := 0;
  mag_plus := Z.add;
  mag_times := Z.mul
|}.

(** Modelled from the spec: the traits of [double], a real scalar type:
    [dot (x, y) = x * y], [norm (x) = fabs (x)], in binary64 arithmetic. *)
#[export] Instance double_traits : InnerProductSpaceTraits float := {|
  dot_type := float;
  mag_type := float;
  IPT_dot := PrimFloat.mul;
  IPT_norm := PrimFloat.abs;
  dot_zero := PrimFloat.zero;
  dot_plus := PrimFloat.add;
  mag_zero := PrimFloat.zero;
  mag_plus := PrimFloat.add;
  mag_times := PrimFloat.mul
|}.

(* ================================================================== *)
(** * Views and loops *)
(* ================================================================== *)

(** A 2-D [Kokkos::View]: its two dimensions and the element found at
    [(i, j)].  The layout stays abstract (the functors work for any). *)
Record View2 (A : Type) : Type := mkView2 {
  dimension_0 : Z;
  dimension_1 : Z;
  elem : Z -> Z -> A
}.
Arguments mkView2 {A} _ _ _.
Arguments dimension_0 {A} _.
Arguments dimension_1 {A} _.
Arguments elem {A} _ _ _.

(** [subview (X, ALL (), col)]: the 1-D view of one column. *)
Definition subview_col {A : Type} (X : View2 A) (col : Z) : Z -> A :=
  fun i => elem X i col.

(** A 1-D array (the result view [r], or the scratch array that holds a
    reduction state), and the assignment [a(k) = v]. *)
Definition upd {A : Type} (a : Z -> A) (k : Z) (v : A) : Z -> A :=
  fun j => if j =? k then v else a j.

(** The assignment [X(i,j) = v]. *)
Definition upd2 {A : Type} (m : Z -> Z -> A) (i j : Z) (v : A) : Z -> Z -> A :=
  fun i' j' => if (i' =? i) && (j' =? j) then v else m i' j'.

(** [n] iterations of [body], the counter running upwards from [k]. *)
Fixpoint for_up {S : Type} (n : nat) (k : Z) (body : Z -> S -> S) (s : S) : S :=
  match n with
  | O => s
  | Datatypes.S n' => for_up n' (k + 1) body (body k s)
  end.

(** [for (k = 0; k < bound; ++k) body]; no iteration when [bound <= 0]. *)
Definition for_loop {S : Type} (bound : Z) (body : Z -> S -> S) (s : S) : S :=
  for_up (Z.to_nat bound) 0 body s.

(* ================================================================== *)
(** * The parallel primitives *)
(* ================================================================== *)

(** What [Kokkos::parallel_reduce] asks of a functor: [init], the
    contribution [operator()], [join] and [final].  [V] is the functor's
    [value_type] (a scalar, or an array of [value_count] scalars), [R]
    the memory of the output view. *)
Record ReduceFunctor (V R : Type) : Type := mkReduceFunctor {
  init : V -> V;
  contribute : Z -> V -> V;
  join : V -> V -> V;
  final : V -> R -> R
}.
Arguments mkReduceFunctor {V R} _ _ _ _.
Arguments init {V R} _ _.
Arguments contribute {V R} _ _ _.
Arguments join {V R} _ _ _.
Arguments final {V R} _ _ _.

(** The indices [b, b + 1, ..., e - 1] of a range, in order. *)
Definition range (b e : Z) : list Z :=
  map (fun k => b + Z.of_nat k) (seq 0 (Z.to_nat (e - b))).

(** Modelled from the spec: the parallel-reduction primitive of Kokkos,
    which partitions the rows across workers, holds one reduction state
    per partition, merges the states with [join] in an order of its own
    and calls [final] once.  A schedule is the tree of the merges: a
    worker reduces the rows assigned to it, in the order given, and
    [Merge l r] joins the state of [r] into the state of [l]. *)
Inductive schedule : Type :=
| Worker (rows : list Z)
| Merge (l r : schedule).

(** The rows that a schedule hands out, worker after worker. *)
Fixpoint assigned (s : schedule) : list Z :=
  match s with
  | Worker rows => rows
  | Merge l r => assigned l ++ assigned r
  end.

(** A scheduler lays out a schedule for the rows of a range.  It
    partitions them when every row is handed out exactly once. *)
Definition scheduler : Type := list Z -> schedule.

Definition partitions (sched : scheduler) (rows : list Z) : Prop :=
  Permutation (assigned (sched rows)) rows.

(** One worker for all rows, in order (the serial backend). *)
Definition serial : scheduler := fun rows => Worker rows.

(** Two workers, one for each half of the range; the state of the first
    half is joined into the state of the second. *)
Definition halves_swapped : scheduler := fun rows =>
  let n := (length rows / 2)%nat in
  Merge (Worker (skipn n rows)) (Worker (firstn n rows)).

(** Two workers that take the rows in turn (a stride of 2). *)
Fixpoint alternate {A : Type} (l : list A) : list A * list A :=
  match l with
  | [] => ([], [])
  | x :: l' => let (a, b) := alternate l' in (x :: b, a)
  end.

Definition strided : scheduler := fun rows =>
  let (a, b) := alternate rows in Merge (Worker b) (Worker a).

(** Modelled from the spec: the reduction state that a schedule ends
    with.  Each worker starts from [init] on its (uninitialised)
    [scratch] state. *)
Fixpoint partial_reduce {V R : Type} (F : ReduceFunctor V R) (scratch : V)
    (s : schedule) : V :=
  match s with
  | Worker rows => fold_left (fun v i => contribute F i v) rows (init F scratch)
  | Merge l r =>
      join F (partial_reduce F scratch l) (partial_reduce F scratch r)
  end.

(** Modelled from the spec: the range of the primitive,
    [Kokkos::RangePolicy<execution_space, t> policy (work_begin, work_end)];
    the bounds are converted to the policy's index type; an empty or
    inverted range is the empty range at 0. *)
Definition RangePolicy (w : Z) (t : SizeType) (work_begin work_end : Z) : Z * Z :=
  let b := static_cast w t work_begin in
  let e := static_cast w t work_end in
  if b <? e then (b, e) else (0, 0).

(** The rows of a policy. *)
Definition policy_rows (policy : Z * Z) : list Z :=
  range (fst policy) (snd policy).

(** Modelled from the spec: [Kokkos::parallel_reduce (policy, op)]; the
    rows of the policy are reduced as the scheduler lays out and [final]
    is called once on the merged state. *)
Definition parallel_reduce {V R : Type} (sched : scheduler) (scratch : V)
    (policy : Z * Z) (op : ReduceFunctor V R) (r : R) : R :=
  final op (partial_reduce op scratch (sched (policy_rows policy))) r.

(** Modelled from the spec: the range of
    [Kokkos::parallel_reduce (numRows, op)], that is [0, numRows), given
    as a count of type [size_type]. *)
Definition count_range (w : Z) (work_count : Z) : Z * Z :=
  RangePolicy w ST_size_type 0 work_count.

(** Modelled from the spec: [Kokkos::parallel_for (policy, op)]; every
    worker calls [op (i)] for the rows [i] handed out to it.  The calls
    act on the memory of the views one after the other, worker after
    worker. *)
Definition parallel_for {S : Type} (sched : scheduler) (policy : Z * Z)
    (op : Z -> S -> S) (s : S) : S :=
  fold_left (fun s i => op i s) (assigned (sched (policy_rows policy))) s.

(* ================================================================== *)
(** * Template instantiations *)
(* ================================================================== *)

(** The functor that [Dot_MV::dot] instantiates: the runtime column loop,
    the loop unrolled [UNROLL] times, or the single-vector functor on the
    0-D view of entry [r_entry] of [r] and the columns [X_col] of [X] and
    [Y_col] of [Y]; each with its [SizeType]. *)
Inductive DotKernel : Type :=
| Dot_Vector (st : SizeType)
| Dot_Unroll (UNROLL : Z) (st : SizeType)
| Dot_Single (st : SizeType) (r_entry X_col Y_col : Z).

(** The functor that [Nrm2_MV::nrm2_squared] instantiates. *)
Inductive Nrm2Kernel : Type :=
| Nrm2_Vector (st : SizeType).

(** The functor that [Fill_MV::fill] instantiates. *)
Inductive FillKernel : Type :=
| Fill_Functor (st : SizeType).

(** A launch with an explicit [RangePolicy]: the functor and the index
    type of the policy. *)
Record Launch (K : Type) : Type := mkLaunch {
  kernel : K;
  policy_index : SizeType
}.
Arguments mkLaunch {K} _ _.
Arguments kernel {K} _.
Arguments policy_index {K} _.

(** The kind of column loop of a functor. *)
Inductive KernelShape : Type :=
| RuntimeLoop
| Unrolled (UNROLL : Z)
| SingleVector.

Definition dot_kernel_shape (k : DotKernel) : KernelShape :=
  match k with
  | Dot_Vector _ => RuntimeLoop
  | Dot_Unroll UNROLL _ => Unrolled UNROLL
  | Dot_Single _ _ _ _ => SingleVector
  end.

Definition nrm2_kernel_shape (k : Nrm2Kernel) : KernelShape :=
  match k with
  | Nrm2_Vector _ => RuntimeLoop
  end.

(** The [SizeType] argument of the instantiated functor. *)
Definition dot_kernel_index (k : DotKernel) : SizeType :=
  match k with
  | Dot_Vector st => st
  | Dot_Unroll _ st => st
  | Dot_Single st _ _ _ => st
  end.

Definition nrm2_kernel_index (k : Nrm2Kernel) : SizeType :=
  match k with
  | Nrm2_Vector st => st
  end.

Definition fill_kernel_index (k : FillKernel) : SizeType :=
  match k with
  | Fill_Functor st => st
  end.

(* ================================================================== *)
(** * Reduction functors *)
(* ================================================================== *)

Section Functors.

Context {xvalue_type : Type} {IPT : InnerProductSpaceTraits xvalue_type}.

(** Width of [size_type], in bits. *)
Variable w : Z.

(** [V_Dot_Functor<RV, XV, YV, SizeType>], the dot product functor for
    single vectors.  [m_r] is a 0-D view: it is given by the entry of the
    result array that it designates. *)
Definition V_Dot_Functor (st : SizeType) (m_r : Z) (m_x m_y : Z -> xvalue_type)
  : ReduceFunctor dot_type (Z -> dot_type) :=
  {| contribute := fun i sum =>
       let i := static_cast w st i in
       dot_plus sum (IPT_dot (m_x i) (m_y i));
     init := fun _ => dot_zero;
     join := fun update source => dot_plus update source;
     final := fun dst r => upd r m_r dst |}.

(** [MV_Dot_Right_FunctorVector<RV, XMV, YMV, SizeType>]: the column
    loop runs to [value_count], the number of columns of [x] held in a
    [SizeType]. *)
Definition MV_Dot_Right_FunctorVector (st : SizeType) (x y : View2 xvalue_type)
  : ReduceFunctor (Z -> dot_type) (Z -> dot_type) :=
  let value_count := static_cast w st (dimension_1 x) in
  {| contribute := fun i sum =>
       let i := static_cast w st i in
       let numVecs := value_count in
       for_loop numVecs
         (fun k sum => upd sum k (dot_plus (sum k) (IPT_dot (elem x i k) (elem y i k))))
         sum;
     init := fun update =>
       let numVecs := value_count in
       for_loop numVecs (fun k update => upd update k dot_zero) update;
     join := fun update source =>
       let numVecs := value_count in
       for_loop numVecs
         (fun k update => upd update k (dot_plus (update k) (source k)))
         update;
     final := fun dst r =>
       let numVecs := value_count in
       for_loop numVecs (fun k r => upd r k (dst k)) r |}.

(** [MV_Dot_Right_FunctorUnroll<RV, XMV, YMV, UNROLL, SizeType>]: the
    column loop has the trip count [UNROLL] and an [int] counter.  The
    member [value_count] is read by Kokkos alone, to size the array that
    holds a reduction state; arrays are not bounded here. *)
Definition MV_Dot_Right_FunctorUnroll (UNROLL : Z) (st : SizeType)
    (x y : View2 xvalue_type)
  : ReduceFunctor (Z -> dot_type) (Z -> dot_type) :=
  {| contribute := fun i sum =>
       let i := static_cast w st i in
       for_loop UNROLL
         (fun k sum => upd sum k (dot_plus (sum k) (IPT_dot (elem x i k) (elem y i k))))
         sum;
     init := fun update =>
       for_loop UNROLL (fun k update => upd update k dot_zero) update;
     join := fun update source =>
       for_loop UNROLL
         (fun k update => upd update k (dot_plus (update k) (source k)))
         update;
     final := fun dst r =>
       for_loop UNROLL (fun k r => upd r k (dst k)) r |}.

(** [MV_Nrm2Squared_Right_FunctorVector<RV, XMV, SizeType>]. *)
Definition MV_Nrm2Squared_Right_FunctorVector (st : SizeType) (x : View2 xvalue_type)
  : ReduceFunctor (Z -> mag_type) (Z -> mag_type) :=
  let value_count := static_cast w st (dimension_1 x) in
  {| contribute := fun i sum =>
       let i := static_cast w st i in
       let numVecs := value_count in
       for_loop numVecs
         (fun j sum =>
            let tmp := IPT_norm (elem x i j) in
            upd sum j (mag_plus (sum j) (mag_times tmp tmp)))
         sum;
     init := fun update =>
       let numVecs := value_count in
       for_loop numVecs (fun j update => upd update j mag_zero) update;
     join := fun update source =>
       let numVecs := value_count in
       for_loop numVecs
         (fun j update => upd update j (mag_plus (update j) (source j)))
         update;
     final := fun dst r =>
       let numVecs := value_count in
       for_loop numVecs (fun j r => upd r j (dst j)) r |}.

(** [MV_FillFunctor<XMV, SizeType>::operator()], acting on the elements
    of [X_]. *)
Definition MV_FillFunctor (st : SizeType) (X : View2 xvalue_type) (val : xvalue_type)
  : Z -> (Z -> Z -> xvalue_type) -> (Z -> Z -> xvalue_type) :=
  let numCols_ := static_cast w st (dimension_1 X) in
  fun i X_ =>
    let i := static_cast w st i in
    for_loop numCols_ (fun j X_ => upd2 X_ i j val) X_.

(* ================================================================== *)
(** * Dispatchers *)
(* ================================================================== *)

(** The functor chosen by [Dot_MV::dot (r, X, Y)]: the test on
    [numVecs > 16] and the [switch] on [numVecs], which has the cases 16
    down to 1 and no [default].  No [SizeType] argument is passed, so
    every functor has its default one, [XMV::size_type]. *)
Definition Dot_MV_dot_kernel (numVecs : Z) : option DotKernel :=
  if 16 <? numVecs then Some (Dot_Vector ST_size_type)
  else
    match numVecs with
    | 16 => Some (Dot_Unroll 16 ST_size_type)
    | 15 => Some (Dot_Unroll 15 ST_size_type)
    | 14 => Some (Dot_Unroll 14 ST_size_type)
    | 13 => Some (Dot_Unroll 13 ST_size_type)
    | 12 => Some (Dot_Unroll 12 ST_size_type)
    | 11 => Some (Dot_Unroll 11 ST_size_type)
    | 10 => Some (Dot_Unroll 10 ST_size_type)
    | 9 => Some (Dot_Unroll 9 ST_size_type)
    | 8 => Some (Dot_Unroll 8 ST_size_type)
    | 7 => Some (Dot_Unroll 7 ST_size_type)
    | 6 => Some (Dot_Unroll 6 ST_size_type)
    | 5 => Some (Dot_Unroll 5 ST_size_type)
    | 4 => Some (Dot_Unroll 4 ST_size_type)
    | 3 => Some (Dot_Unroll 3 ST_size_type)
    | 2 => Some (Dot_Unroll 2 ST_size_type)
    | 1 => Some (Dot_Single ST_size_type 0 0 0)
    | _ => None
    end.

(** [Kokkos::parallel_reduce (numRows, op)] for the chosen functor [op]. *)
Definition run_dot_kernel (sched : scheduler) (scratch : Z -> dot_type)
    (numRows : Z) (k : DotKernel) (r : Z -> dot_type) (X Y : View2 xvalue_type)
  : Z -> dot_type :=
  match k with
  | Dot_Vector st =>
      parallel_reduce sched scratch (count_range w numRows)
        (MV_Dot_Right_FunctorVector st X Y) r
  | Dot_Unroll UNROLL st =>
      parallel_reduce sched scratch (count_range w numRows)
        (MV_Dot_Right_FunctorUnroll UNROLL st X Y) r
  | Dot_Single st r_entry X_col Y_col =>
      parallel_reduce sched (scratch 0) (count_range w numRows)
        (V_Dot_Functor st r_entry (subview_col X X_col) (subview_col Y Y_col)) r
  end.

(** [Dot_MV::dot (r, X, Y)]: the contents of [r] afterwards. *)
Definition Dot_MV_dot (sched : scheduler) (scratch : Z -> dot_type)
    (r : Z -> dot_type) (X Y : View2 xvalue_type) : Z -> dot_type :=
  let numRows := dimension_0 X in
  let numVecs := dimension_1 X in
  match Dot_MV_dot_kernel numVecs with
  | Some k => run_dot_kernel sched scratch numRows k r X Y
  | None => r
  end.

(** The functor chosen by [Dot_MV::dot (r, X, X_col, Y, Y_col)]. *)
Definition Dot_MV_dot_col_kernel (numRows numCols X_col Y_col : Z) : DotKernel :=
  if index_range_check w numRows numCols
  then Dot_Single ST_int 0 X_col Y_col
  else Dot_Single ST_size_type 0 X_col Y_col.

(** [Dot_MV::dot (r, X, X_col, Y, Y_col)]: the contents of [r]
    afterwards. *)
Definition Dot_MV_dot_col (sched : scheduler) (scratch : Z -> dot_type)
    (r : Z -> dot_type) (X : View2 xvalue_type) (X_col : Z)
    (Y : View2 xvalue_type) (Y_col : Z) : Z -> dot_type :=
  let numRows := dimension_0 X in
  let numCols := dimension_1 X in
  run_dot_kernel sched scratch numRows
    (Dot_MV_dot_col_kernel numRows numCols X_col Y_col) r X Y.

(** The two branches of [Nrm2_MV::nrm2_squared]: the functor has the
    index type [int] or [size_type]; the policy is declared
    [RangePolicy<execution_space, int>] in both. *)
Definition Nrm2_MV_launch (numRows numCols : Z) : Launch Nrm2Kernel :=
  if index_range_check w numRows numCols
  then mkLaunch (Nrm2_Vector ST_int) ST_int
  else mkLaunch (Nrm2_Vector ST_size_type) ST_int.

(** [Kokkos::parallel_reduce (policy, op)] for the chosen functor [op]. *)
Definition run_nrm2_kernel (sched : scheduler) (scratch : Z -> mag_type)
    (policy : Z * Z) (k : Nrm2Kernel) (r : Z -> mag_type)
    (X : View2 xvalue_type) : Z -> mag_type :=
  match k with
  | Nrm2_Vector st =>
      parallel_reduce sched scratch policy (MV_Nrm2Squared_Right_FunctorVector st X) r
  end.

(** [Nrm2_MV::nrm2_squared (r, X)]: the contents of [r] afterwards. *)
Definition Nrm2_MV_nrm2_squared (sched : scheduler) (scratch : Z -> mag_type)
    (r : Z -> mag_type) (X : View2 xvalue_type) : Z -> mag_type :=
  let numRows := dimension_0 X in
  let numCols := dimension_1 X in
  let l := Nrm2_MV_launch numRows numCols in
  let policy := RangePolicy w (policy_index l) 0 numRows in
  run_nrm2_kernel sched scratch policy (kernel l) r X.

(** The two branches of [Fill_MV::fill]: functor and policy have the
    index type [int], or both have [size_type]. *)
Definition Fill_MV_launch (numRows numCols : Z) : Launch FillKernel :=
  if index_range_check w numRows numCols
  then mkLaunch (Fill_Functor ST_int) ST_int
  else mkLaunch (Fill_Functor ST_size_type) ST_size_type.

(** [Kokkos::parallel_for (policy, op)] for the chosen functor [op]. *)
Definition run_fill_kernel (sched : scheduler) (policy : Z * Z) (k : FillKernel)
    (X : View2 xvalue_type) (val : xvalue_type) : Z -> Z -> xvalue_type :=
  match k with
  | Fill_Functor st => parallel_for sched policy (MV_FillFunctor st X val) (elem X)
  end.

(** [Fill_MV::fill (X, val)]: the view [X] afterwards. *)
Definition Fill_MV_fill (sched : scheduler) (X : View2 xvalue_type)
    (val : xvalue_type) : View2 xvalue_type :=
  let numRows := dimension_0 X in
  let numCols := dimension_1 X in
  let l := Fill_MV_launch numRows numCols in
  let policy := RangePolicy w (policy_index l) 0 numRows in
  mkView2 numRows numCols (run_fill_kernel sched policy (kernel l) X val).

End Functors.

(* ================================================================== *)
(** * Reference results *)
(* ================================================================== *)

(** The rows of a multivector, in order. *)
Definition rows_of {A : Type} (X : View2 A) : list Z :=
  range 0 (dimension_0 X).

(** The sequential inner product of column [k] of [X] and [Y], as the
    specification words it: the sum over the rows [i], in order, of
    [dot (X[i][k], Y[i][k])]. *)
Definition sequential_dot {xvalue_type : Type} {IPT : InnerProductSpaceTraits xvalue_type}
    (X Y : View2 xvalue_type) (k : Z) : dot_type :=
  fold_left (fun sum i => dot_plus sum (IPT_dot (elem X i k) (elem Y i k)))
    (rows_of X) dot_zero.

(** The same sum for column [X_col] of [X] and column [Y_col] of [Y]. *)
Definition sequential_dot_pair {xvalue_type : Type}
    {IPT : InnerProductSpaceTraits xvalue_type}
    (X : View2 xvalue_type) (X_col : Z) (Y : View2 xvalue_type) (Y_col : Z)
  : dot_type :=
  fold_left (fun sum i => dot_plus sum (IPT_dot (elem X i X_col) (elem Y i Y_col)))
    (rows_of X) dot_zero.

(** The sequential squared 2-norm of column [k] of [X]. *)
Definition sequential_nrm2_squared {xvalue_type : Type}
    {IPT : InnerProductSpaceTraits xvalue_type}
    (X : View2 xvalue_type) (k : Z) : mag_type :=
  fold_left (fun sum i => mag_plus sum (mag_times (IPT_norm (elem X i k)) (IPT_norm (elem X i k))))
    (rows_of X) mag_zero.

(** The views of the specification's example, 3 rows by 2 columns, given
    by their rows. *)
Definition view_of_rows {A : Type} (d : A) (rows cols : Z) (l : list (list A)) : View2 A :=
  mkView2 rows cols (fun i j => nth (Z.to_nat j) (nth (Z.to_nat i) l []) d).

Definition X_example : View2 Z := view_of_rows 0 3 2 [[1; 2]; [3; 4]; [5; 6]].
Definition Y_example : View2 Z := view_of_rows 0 3 2 [[1; 0]; [0; 1]; [1; 1]].


(** The sum of the terms of one column, associated as a schedule says:
    each worker adds the terms of its rows to zero, one after the other,
    and a merge adds the two sums. *)
Fixpoint tree_sum {D : Type} (zero : D) (plus : D -> D -> D) (term : Z -> D)
    (s : schedule) : D :=
  match s with
  | Worker rows => fold_left (fun sum i => plus sum (term i)) rows zero
  | Merge l r => plus (tree_sum zero plus term l) (tree_sum zero plus term r)
  end.

(** [0 <= j < n], for a column index [j] and a trip count [n]. *)
Definition in_range (n j : Z) : bool := (0 <=? j) && (j <? n).

(** A functor on arrays that treats every column [j < trip] on its own:
    [init] sets it to [zero], the contribution of row [i] adds
    [term i j], [join] adds the source's entry and [final] copies it to
    the result; the entries from [trip] on are left alone. *)
Definition columnwise {D : Type} (F : ReduceFunctor (Z -> D) (Z -> D))
    (trip : Z) (zero : D) (plus : D -> D -> D) (term : Z -> Z -> D) : Prop :=
  (forall u j, init F u j = if in_range trip j then zero else u j)
  /\ (forall i s j,
        contribute F i s j = if in_range trip j then plus (s j) (term i j) else s j)
  /\ (forall u s j,
        join F u s j = if in_range trip j then plus (u j) (s j) else u j)
  /\ (forall dst r j,
        final F dst r j = if in_range trip j then dst j else r j).

(** The contribution of row [i] to the squared 2-norm of column [k]. *)
Definition square_norm {xvalue_type : Type} {IPT : InnerProductSpaceTraits xvalue_type}
    (X : View2 xvalue_type) (k : Z) : Z -> mag_type :=
  fun i => mag_times (IPT_norm (elem X i k)) (IPT_norm (elem X i k)).

(** The laws of an exact scalar type under which neither the partition
    of the rows nor the order of the merges matters: [+] is associative
    and commutative and zero is its right identity. *)
Definition dot_plus_laws {xvalue_type : Type}
    (IPT : InnerProductSpaceTraits xvalue_type) : Prop :=
  (forall a b c : dot_type, dot_plus a (dot_plus b c) = dot_plus (dot_plus a b) c)
  /\ (forall a b : dot_type, dot_plus a b = dot_plus b a)
  /\ (forall a : dot_type, dot_plus a dot_zero = a).

Definition mag_plus_laws {xvalue_type : Type}
    (IPT : InnerProductSpaceTraits xvalue_type) : Prop :=
  (forall a b c : mag_type, mag_plus a (mag_plus b c) = mag_plus (mag_plus a b) c)
  /\ (forall a b : mag_type, mag_plus a b = mag_plus b a)
  /\ (forall a : mag_type, mag_plus a mag_zero = a).

(** What makes [re : dot_type -> mag_type] the real part: it maps zero
    to zero, sums to sums, and [dot (x, x)] to the square of [norm (x)]. *)
Definition real_part_laws {xvalue_type : Type}
    (IPT : InnerProductSpaceTraits xvalue_type) (re : dot_type -> mag_type) : Prop :=
  re dot_zero = mag_zero
  /\ (forall a b, re (dot_plus a b) = mag_plus (re a) (re b))
  /\ (forall x, re (IPT_dot x x) = mag_times (IPT_norm x) (IPT_norm x)).

(** The example of the specification in [double]. *)
Definition X_example_double : View2 float :=
  view_of_rows 0%float 3 2 [[1; 2]; [3; 4]; [5; 6]]%float.
Definition Y_example_double : View2 float :=
  view_of_rows 0%float 3 2 [[1; 0]; [0; 1]; [1; 1]]%float.

(** A view whose elements are all 1. *)
Definition ones (numRows numCols : Z) : View2 Z :=
  mkView2 numRows numCols (fun _ _ => 1).

(** One column of [2^31] rows, and [2^31] columns of no rows. *)
Definition X_tall : View2 Z := ones 2147483648 1.
Definition X_flat : View2 Z := ones 0 2147483648.

(** A result array and a scratch array with arbitrary contents. *)
Definition r_seven : Z -> Z := fun _ => 7.
Definition scratch_five : Z -> Z := fun _ => 5.

(* ================================================================== *)
(** * Single-vector functors without a dispatcher in this file *)
(* ================================================================== *)

Section SingleVectorFunctors.

Context {xvalue_type : Type} {IPT : InnerProductSpaceTraits xvalue_type}.
Variable w : Z.

(** [V_FillFunctor<XV, SizeType>::operator()], acting on the elements of
    [x_]. *)
Definition V_FillFunctor (st : SizeType) (val : xvalue_type)
  : Z -> (Z -> xvalue_type) -> (Z -> xvalue_type) :=
  fun i x_ =>
    let i := static_cast w st i in
    upd x_ i val.

(** [V_Nrm2Squared_Functor<RV, XV, SizeType>], the primary template.
    [m_r] is a 0-D view, given by the entry of the result array that it
    designates. *)
Definition V_Nrm2Squared_Functor (st : SizeType) (m_r : Z) (m_x : Z -> xvalue_type)
  : ReduceFunctor mag_type (Z -> mag_type) :=
  {| contribute := fun i sum =>
       let i := static_cast w st i in
       let tmp := IPT_norm (m_x i) in
       mag_plus sum (mag_times tmp tmp);
     init := fun _ => mag_zero;
     join := fun update source => mag_plus update source;
     final := fun dst r => upd r m_r dst |}.

End SingleVectorFunctors.

(** The partial specialization of [V_Nrm2Squared_Functor] for [double]
    with the index type [int]: the square is taken of the element
    itself, without [IPT::norm], and the zero is the literal [0.0]. *)
Definition V_Nrm2Squared_Functor_double (w : Z) (m_r : Z) (m_x : Z -> float)
  : ReduceFunctor float (Z -> float) :=
  {| contribute := fun i sum =>
       let i := static_cast w ST_int i in
       let tmp := m_x i in
       PrimFloat.add sum (PrimFloat.mul tmp tmp);
     init := fun _ => PrimFloat.zero;
     join := fun update source => PrimFloat.add update source;
     final := fun dst r => upd r m_r dst |}.

(* ================================================================== *)
(** * Machine integers: basic facts *)
(* ================================================================== *)

Lemma pow2_size_ge (w : Z) : 32 <= w -> 2 ^ 32 <= 2 ^ w.
Proof. intros Hw. apply Z.pow_le_mono_r; lia. Qed.

Lemma wrap_size_small (w x : Z) : 0 <= x < 2 ^ w -> wrap_size w x = x.
Proof. intros Hx. unfold wrap_size. apply Z.mod_small. exact Hx. Qed.

Lemma to_int_small (x : Z) : - 2 ^ 31 <= x < 2 ^ 31 -> to_int x = x.
Proof.
  intros Hx. unfold to_int.
  rewrite Z.mod_small by lia. lia.
Qed.

(** An [int] cannot hold a value from [2^31] to [2^32]: the conversion
    yields a negative number. *)
Lemma to_int_overflow (n : Z) : 2 ^ 31 <= n < 2 ^ 32 -> to_int n = n - 2 ^ 32.
Proof.
  intros Hn. unfold to_int.
  replace ((n + 2 ^ 31) mod 2 ^ 32) with (n - 2 ^ 31); [lia|].
  apply Z.mod_unique with (q := 1); lia.
Qed.

Lemma static_cast_INT_MAX (w : Z) :
  32 <= w -> static_cast w ST_size_type INT_MAX = INT_MAX.
Proof.
  intros Hw. pose proof (pow2_size_ge w Hw) as Hp.
  cbn [static_cast]. apply wrap_size_small. unfold INT_MAX. lia.
Qed.

Lemma static_cast_size_small (w x : Z) :
  0 <= x < 2 ^ w -> static_cast w ST_size_type x = x.
Proof. intros Hx. cbn [static_cast]. now apply wrap_size_small. Qed.

Lemma static_cast_int_small (w x : Z) :
  0 <= x < INT_MAX -> static_cast w ST_int x = x.
Proof. intros Hx. cbn [static_cast]. apply to_int_small. unfold INT_MAX in Hx. lia. Qed.

Lemma static_cast_zero (w : Z) (t : SizeType) : static_cast w t 0 = 0.
Proof. destruct t; cbn [static_cast]; [reflexivity | apply Zmod_0_l]. Qed.

(** Indices below a bound that the index type holds are not changed by
    the conversion to it. *)
Lemma static_cast_index (w : Z) (st : SizeType) (n : Z) :
  (st = ST_int -> n <= 2 ^ 31) -> n <= 2 ^ w ->
  forall i, 0 <= i < n -> static_cast w st i = i.
Proof.
  intros Hint Hsz i Hi. destruct st; cbn [static_cast].
  - apply to_int_small. specialize (Hint eq_refl). lia.
  - apply wrap_size_small. lia.
Qed.

(** With a size type of at least 32 bits the check reads: [numRows] is
    below [INT_MAX] and so is the product reduced modulo [2^w]. *)
Lemma index_range_check_spec (w numRows numCols : Z) :
  32 <= w ->
  index_range_check w numRows numCols = true <->
  numRows < INT_MAX /\ (numRows * numCols) mod 2 ^ w < INT_MAX.
Proof.
  intros Hw. unfold index_range_check.
  rewrite (static_cast_INT_MAX w Hw), andb_true_iff, !Z.ltb_lt.
  reflexivity.
Qed.

(** When the product is itself a [size_type] value, nothing wraps. *)
Lemma index_range_check_exact (w numRows numCols : Z) :
  32 <= w -> 0 <= numRows * numCols < 2 ^ w ->
  index_range_check w numRows numCols = true <->
  numRows < INT_MAX /\ numRows * numCols < INT_MAX.
Proof.
  intros Hw Hp. rewrite (index_range_check_spec w numRows numCols Hw).
  rewrite Z.mod_small by exact Hp. reflexivity.
Qed.

(* ================================================================== *)
(** * Ranges and policies *)
(* ================================================================== *)

Lemma In_range (b e i : Z) : In i (range b e) <-> b <= i < e.
Proof.
  unfold range. rewrite in_map_iff. split.
  - intros (k & <- & Hk). apply in_seq in Hk. lia.
  - intros Hi. exists (Z.to_nat (i - b)). split; [lia|].
    apply in_seq. lia.
Qed.

Lemma range_empty (b e : Z) : e <= b -> range b e = [].
Proof.
  intros He. unfold range. replace (Z.to_nat (e - b)) with O by lia. reflexivity.
Qed.

Lemma range_length (b e : Z) : length (range b e) = Z.to_nat (e - b).
Proof. unfold range. now rewrite length_map, length_seq. Qed.

Lemma RangePolicy_size_type (w n : Z) :
  0 <= n < 2 ^ w -> RangePolicy w ST_size_type 0 n = (0, n).
Proof.
  intros Hn. unfold RangePolicy.
  rewrite static_cast_zero, static_cast_size_small by exact Hn.
  destruct (Z.ltb_spec 0 n); [reflexivity | f_equal; lia].
Qed.

Lemma RangePolicy_int (w n : Z) :
  0 <= n < 2 ^ 31 -> RangePolicy w ST_int 0 n = (0, n).
Proof.
  intros Hn. unfold RangePolicy.
  rewrite static_cast_zero. cbn [static_cast]. rewrite to_int_small by lia.
  destruct (Z.ltb_spec 0 n); [reflexivity | f_equal; lia].
Qed.

(** An [int] policy for a row count from [2^31] to [2^32] has an empty
    range. *)
Lemma RangePolicy_int_overflow (w n : Z) :
  2 ^ 31 <= n < 2 ^ 32 -> RangePolicy w ST_int 0 n = (0, 0).
Proof.
  intros Hn. unfold RangePolicy.
  rewrite static_cast_zero. cbn [static_cast]. rewrite to_int_overflow by exact Hn.
  destruct (Z.ltb_spec 0 (n - 2 ^ 32)); [lia | reflexivity].
Qed.

Lemma RangePolicy_no_rows (w : Z) (t : SizeType) : RangePolicy w t 0 0 = (0, 0).
Proof. unfold RangePolicy. rewrite static_cast_zero. reflexivity. Qed.

Lemma count_range_exact (w n : Z) : 0 <= n < 2 ^ w -> count_range w n = (0, n).
Proof. apply RangePolicy_size_type. Qed.

(** The schedulers above hand out every row exactly once. *)
Lemma serial_partitions (rows : list Z) : partitions serial rows.
Proof. apply Permutation_refl. Qed.

Lemma halves_swapped_partitions (rows : list Z) : partitions halves_swapped rows.
Proof.
  unfold partitions, halves_swapped. cbn [assigned].
  rewrite Permutation_app_comm, firstn_skipn. apply Permutation_refl.
Qed.

Lemma alternate_Permutation {A : Type} (l : list A) :
  Permutation (snd (alternate l) ++ fst (alternate l)) l.
Proof.
  induction l as [|x l IH]; cbn [alternate].
  - apply Permutation_refl.
  - destruct (alternate l) as [a b]. cbn [fst snd] in *.
    apply Permutation_sym, Permutation_cons_app, Permutation_sym.
    rewrite Permutation_app_comm. exact IH.
Qed.

Lemma strided_partitions (rows : list Z) : partitions strided rows.
Proof.
  unfold partitions, strided. pose proof (alternate_Permutation rows) as H.
  destruct (alternate rows) as [a b]. exact H.
Qed.

(** The rows of a schedule that partitions a range lie in the range. *)
Lemma partitions_range (sched : scheduler) (b e i : Z) :
  partitions sched (range b e) -> In i (assigned (sched (range b e))) -> b <= i < e.
Proof.
  intros Hp Hi. apply In_range. exact (Permutation_in i Hp Hi).
Qed.

Lemma partitions_no_rows (sched : scheduler) :
  partitions sched [] -> assigned (sched []) = [].
Proof.
  intros Hp. apply Permutation_nil. apply Permutation_sym. exact Hp.
Qed.

(* ================================================================== *)
(** * Loops *)
(* ================================================================== *)

Lemma for_loop_nonpos {S : Type} (n : Z) (body : Z -> S -> S) (s : S) :
  n <= 0 -> for_loop n body s = s.
Proof.
  intros Hn. unfold for_loop.
  replace (Z.to_nat n) with O by lia. reflexivity.
Qed.

Lemma in_range_true (n j : Z) : 0 <= j < n -> in_range n j = true.
Proof. intros Hj. unfold in_range. apply andb_true_iff. lia. Qed.

Lemma in_range_nonpos (n j : Z) : n <= 0 -> in_range n j = false.
Proof.
  intros Hn. unfold in_range.
  destruct (Z.leb_spec 0 j), (Z.ltb_spec j n); try reflexivity. lia.
Qed.

(** A loop whose iteration [k] assigns entry [k] from its old value. *)
Lemma for_up_upd {A : Type} (g : Z -> A -> A) (n : nat) (lo : Z) (s : Z -> A) (j : Z) :
  for_up n lo (fun k a => upd a k (g k (a k))) s j
  = if (lo <=? j) && (j <? lo + Z.of_nat n) then g j (s j) else s j.
Proof.
  revert lo s. induction n as [|n IH]; intros lo s; cbn [for_up].
  - destruct (Z.leb_spec lo j), (Z.ltb_spec j (lo + Z.of_nat 0));
      try reflexivity. lia.
  - rewrite IH. unfold upd.
    destruct (Z.eqb_spec j lo) as [->|Hne].
    + destruct (Z.leb_spec (lo + 1) lo), (Z.leb_spec lo lo),
        (Z.ltb_spec lo (lo + Z.of_nat (S n))); cbn [andb];
        try reflexivity; lia.
    + destruct (Z.leb_spec (lo + 1) j), (Z.ltb_spec j (lo + 1 + Z.of_nat n)),
        (Z.leb_spec lo j), (Z.ltb_spec j (lo + Z.of_nat (S n))); cbn [andb];
        try reflexivity; lia.
Qed.

Lemma for_loop_upd {A : Type} (g : Z -> A -> A) (n : Z) (s : Z -> A) (j : Z) :
  for_loop n (fun k a => upd a k (g k (a k))) s j
  = if in_range n j then g j (s j) else s j.
Proof.
  unfold for_loop, in_range. rewrite for_up_upd.
  destruct (Z.leb_spec 0 j); [|reflexivity]. cbn [andb].
  destruct (Z.ltb_spec j (0 + Z.of_nat (Z.to_nat n))), (Z.ltb_spec j n);
    try reflexivity; lia.
Qed.

(** The column loop of the fill functor, for row [i]. *)
Lemma for_up_upd2 {A : Type} (i : Z) (v : A) (n : nat) (lo : Z)
    (m : Z -> Z -> A) (i' j' : Z) :
  for_up n lo (fun j m => upd2 m i j v) m i' j'
  = if (i' =? i) && ((lo <=? j') && (j' <? lo + Z.of_nat n)) then v else m i' j'.
Proof.
  revert lo m. induction n as [|n IH]; intros lo m; cbn [for_up].
  - destruct (Z.eqb_spec i' i), (Z.leb_spec lo j'), (Z.ltb_spec j' (lo + Z.of_nat 0));
      cbn [andb]; try reflexivity; lia.
  - rewrite IH. unfold upd2.
    destruct (Z.eqb_spec i' i), (Z.eqb_spec j' lo), (Z.leb_spec (lo + 1) j'),
      (Z.ltb_spec j' (lo + 1 + Z.of_nat n)), (Z.leb_spec lo j'),
      (Z.ltb_spec j' (lo + Z.of_nat (S n)));
      cbn [andb]; try reflexivity; lia.
Qed.

Lemma for_loop_upd2 {A : Type} (i : Z) (v : A) (n : Z) (m : Z -> Z -> A) (i' j' : Z) :
  for_loop n (fun j m => upd2 m i j v) m i' j'
  = if (i' =? i) && in_range n j' then v else m i' j'.
Proof.
  unfold for_loop, in_range. rewrite for_up_upd2.
  destruct (Z.eqb_spec i' i), (Z.leb_spec 0 j'),
    (Z.ltb_spec j' (0 + Z.of_nat (Z.to_nat n))), (Z.ltb_spec j' n);
    cbn [andb]; try reflexivity; lia.
Qed.

Lemma fold_left_ext_in {A B : Type} (f g : A -> B -> A) (l : list B) (a : A) :
  (forall a i, In i l -> f a i = g a i) -> fold_left f l a = fold_left g l a.
Proof.
  revert a. induction l as [|i l IH]; intros a Hfg; cbn [fold_left].
  - reflexivity.
  - rewrite (Hfg a i) by (left; reflexivity).
    apply IH. intros a' i' Hi'. apply Hfg. right. exact Hi'.
Qed.

Lemma fold_left_id {A B : Type} (f : A -> B -> A) (l : list B) (a : A) :
  (forall a i, f a i = a) -> fold_left f l a = a.
Proof.
  intros Hf. revert a. induction l as [|i l IH]; intros a; cbn [fold_left].
  - reflexivity.
  - now rewrite Hf, IH.
Qed.

(* ================================================================== *)
(** * Sums over a schedule *)
(* ================================================================== *)

Section TreeSum.

Context {D : Type}.
Variables (zero : D) (plus : D -> D -> D).

Lemma tree_sum_ext (f g : Z -> D) (s : schedule) :
  (forall i, In i (assigned s) -> f i = g i) ->
  tree_sum zero plus f s = tree_sum zero plus g s.
Proof.
  induction s as [rows|l IHl r IHr]; intros Hfg; cbn [tree_sum assigned] in *.
  - apply fold_left_ext_in. intros a i Hi. now rewrite Hfg.
  - rewrite IHl, IHr; [reflexivity | |]; intros i Hi; apply Hfg, in_or_app; auto.
Qed.

(** A schedule without rows yields a sum of zeros. *)
Lemma tree_sum_no_rows (f : Z -> D) (s : schedule) :
  plus zero zero = zero -> assigned s = [] -> tree_sum zero plus f s = zero.
Proof.
  intros Hzero. induction s as [rows|l IHl r IHr]; cbn [tree_sum assigned]; intros Hs.
  - now subst rows.
  - apply app_eq_nil in Hs as [Hl Hr]. now rewrite IHl, IHr.
Qed.

(** A map that preserves zero and sums preserves the sum of a column,
    whatever the schedule. *)
Lemma tree_sum_map {M : Type} (re : D -> M) (zero' : M) (plus' : M -> M -> M)
    (f : Z -> D) (s : schedule) :
  re zero = zero' ->
  (forall a b, re (plus a b) = plus' (re a) (re b)) ->
  re (tree_sum zero plus f s) = tree_sum zero' plus' (fun i => re (f i)) s.
Proof.
  intros Hzero Hplus.
  induction s as [rows|l IHl r IHr]; cbn [tree_sum].
  - rewrite <- Hzero. generalize zero.
    induction rows as [|i rows IH]; intros a; cbn [fold_left].
    + reflexivity.
    + now rewrite IH, Hplus.
  - now rewrite Hplus, IHl, IHr.
Qed.

(** The laws under which neither the partition nor the order of the
    merges matters. *)
Hypothesis plus_assoc : forall a b c, plus a (plus b c) = plus (plus a b) c.
Hypothesis plus_comm : forall a b, plus a b = plus b a.
Hypothesis plus_zero_r : forall a, plus a zero = a.

Lemma plus_fold_left (f : Z -> D) (rows : list Z) (a b : D) :
  plus a (fold_left (fun sum i => plus sum (f i)) rows b)
  = fold_left (fun sum i => plus sum (f i)) rows (plus a b).
Proof.
  revert b. induction rows as [|i rows IH]; intros b; cbn [fold_left].
  - reflexivity.
  - now rewrite IH, plus_assoc.
Qed.

(** The sum of a schedule is the sum over the rows it hands out. *)
Lemma tree_sum_assigned (f : Z -> D) (s : schedule) :
  tree_sum zero plus f s
  = fold_left (fun sum i => plus sum (f i)) (assigned s) zero.
Proof.
  induction s as [rows|l IHl r IHr]; cbn [tree_sum assigned].
  - reflexivity.
  - rewrite IHl, IHr, plus_fold_left, plus_zero_r, fold_left_app. reflexivity.
Qed.

Lemma fold_left_plus_Permutation (f : Z -> D) (l l' : list Z) (a : D) :
  Permutation l l' ->
  fold_left (fun sum i => plus sum (f i)) l a
  = fold_left (fun sum i => plus sum (f i)) l' a.
Proof.
  intros Hp. revert a. induction Hp as [|x l l' _ IH|x y l|l l' l'' _ IH1 _ IH2];
    intros a; cbn [fold_left].
  - reflexivity.
  - apply IH.
  - f_equal. rewrite <- !plus_assoc. f_equal. apply plus_comm.
  - now rewrite IH1.
Qed.

(** Every schedule that partitions the rows yields the sum taken row
    after row. *)
Lemma tree_sum_partition (f : Z -> D) (sched : scheduler) (rows : list Z) :
  partitions sched rows ->
  tree_sum zero plus f (sched rows)
  = fold_left (fun sum i => plus sum (f i)) rows zero.
Proof.
  intros Hp. rewrite tree_sum_assigned.
  now apply fold_left_plus_Permutation.
Qed.

End TreeSum.

Section Columnwise.

Context {D : Type}.
Variables (F : ReduceFunctor (Z -> D) (Z -> D)) (trip : Z).
Variables (zero : D) (plus : D -> D -> D) (term : Z -> Z -> D).
Hypothesis HF : columnwise F trip zero plus term.

Lemma columnwise_rows (rows : list Z) (u : Z -> D) (j : Z) :
  in_range trip j = true ->
  fold_left (fun v i => contribute F i v) rows u j
  = fold_left (fun sum i => plus sum (term i j)) rows (u j).
Proof.
  intros Hj. destruct HF as (_ & Hc & _).
  revert u. induction rows as [|i rows IH]; intros u; cbn [fold_left].
  - reflexivity.
  - rewrite IH, Hc, Hj. reflexivity.
Qed.

(** Column [j] of the merged state is the sum of column [j], associated
    as the schedule says. *)
Lemma columnwise_partial_reduce (scratch : Z -> D) (s : schedule) (j : Z) :
  in_range trip j = true ->
  partial_reduce F scratch s j = tree_sum zero plus (fun i => term i j) s.
Proof.
  intros Hj. pose proof HF as (Hi & _ & Hjn & _).
  induction s as [rows|l IHl r IHr]; cbn [partial_reduce tree_sum].
  - rewrite columnwise_rows by exact Hj. now rewrite Hi, Hj.
  - rewrite Hjn, Hj, IHl, IHr. reflexivity.
Qed.

(** [parallel_reduce] writes the sums of the columns below [trip] and
    nothing else. *)
Lemma columnwise_parallel_reduce (sched : scheduler) (scratch : Z -> D)
    (policy : Z * Z) (r : Z -> D) (j : Z) :
  parallel_reduce sched scratch policy F r j
  = if in_range trip j
    then tree_sum zero plus (fun i => term i j) (sched (policy_rows policy))
    else r j.
Proof.
  pose proof HF as (_ & _ & _ & Hf).
  unfold parallel_reduce. rewrite Hf.
  destruct (in_range trip j) eqn:Hj; [|reflexivity].
  now apply columnwise_partial_reduce.
Qed.

End Columnwise.

(* ================================================================== *)
(** * The functors, column by column *)
(* ================================================================== *)

Section FunctorFacts.

Context {xvalue_type : Type} {IPT : InnerProductSpaceTraits xvalue_type}.
Variable w : Z.

Lemma MV_Dot_Right_FunctorVector_columnwise (st : SizeType)
    (x y : View2 xvalue_type) :
  columnwise (MV_Dot_Right_FunctorVector w st x y)
    (static_cast w st (dimension_1 x)) dot_zero dot_plus
    (fun i k => IPT_dot (elem x (static_cast w st i) k)
                        (elem y (static_cast w st i) k)).
Proof.
  unfold columnwise, MV_Dot_Right_FunctorVector; cbn [init contribute join final].
  repeat split; intros.
  - exact (for_loop_upd (fun _ _ => dot_zero) _ _ _).
  - exact (for_loop_upd (fun k a => dot_plus a _) _ _ _).
  - exact (for_loop_upd (fun k a => dot_plus a (s k)) _ _ _).
  - exact (for_loop_upd (fun k _ => dst k) _ _ _).
Qed.

Lemma MV_Dot_Right_FunctorUnroll_columnwise (UNROLL : Z) (st : SizeType)
    (x y : View2 xvalue_type) :
  columnwise (MV_Dot_Right_FunctorUnroll w UNROLL st x y)
    UNROLL dot_zero dot_plus
    (fun i k => IPT_dot (elem x (static_cast w st i) k)
                        (elem y (static_cast w st i) k)).
Proof.
  unfold columnwise, MV_Dot_Right_FunctorUnroll; cbn [init contribute join final].
  repeat split; intros.
  - exact (for_loop_upd (fun _ _ => dot_zero) _ _ _).
  - exact (for_loop_upd (fun k a => dot_plus a _) _ _ _).
  - exact (for_loop_upd (fun k a => dot_plus a (s k)) _ _ _).
  - exact (for_loop_upd (fun k _ => dst k) _ _ _).
Qed.

Lemma MV_Nrm2Squared_Right_FunctorVector_columnwise (st : SizeType)
    (x : View2 xvalue_type) :
  columnwise (MV_Nrm2Squared_Right_FunctorVector w st x)
    (static_cast w st (dimension_1 x)) mag_zero mag_plus
    (fun i j => square_norm x j (static_cast w st i)).
Proof.
  unfold columnwise, MV_Nrm2Squared_Right_FunctorVector, square_norm;
    cbn [init contribute join final].
  repeat split; intros.
  - exact (for_loop_upd (fun _ _ => mag_zero) _ _ _).
  - exact (for_loop_upd (fun k a => mag_plus a _) _ _ _).
  - exact (for_loop_upd (fun k a => mag_plus a (s k)) _ _ _).
  - exact (for_loop_upd (fun k _ => dst k) _ _ _).
Qed.

(** The single-vector functor sums its one column. *)
Lemma V_Dot_Functor_partial_reduce (st : SizeType) (m_r : Z)
    (m_x m_y : Z -> xvalue_type) (scratch : dot_type) (s : schedule) :
  partial_reduce (V_Dot_Functor w st m_r m_x m_y) scratch s
  = tree_sum dot_zero dot_plus
      (fun i => IPT_dot (m_x (static_cast w st i)) (m_y (static_cast w st i))) s.
Proof.
  induction s as [rows|l IHl r IHr]; cbn [partial_reduce tree_sum].
  - reflexivity.
  - rewrite IHl, IHr. reflexivity.
Qed.

Lemma V_Dot_Functor_parallel_reduce (st : SizeType) (m_r : Z)
    (m_x m_y : Z -> xvalue_type) (scratch : dot_type) (sched : scheduler)
    (policy : Z * Z) (r : Z -> dot_type) (j : Z) :
  parallel_reduce sched scratch policy (V_Dot_Functor w st m_r m_x m_y) r j
  = if j =? m_r
    then tree_sum dot_zero dot_plus
           (fun i => IPT_dot (m_x (static_cast w st i)) (m_y (static_cast w st i)))
           (sched (policy_rows policy))
    else r j.
Proof.
  unfold parallel_reduce. rewrite V_Dot_Functor_partial_reduce.
  reflexivity.
Qed.

(** The rows that a partition of [0, n) hands out are not changed by the
    conversion to an index type that holds [n]. *)
Lemma tree_sum_static_cast {D : Type} (zero : D) (plus : D -> D -> D)
    (f : Z -> D) (st : SizeType) (sched : scheduler) (n : Z) :
  partitions sched (range 0 n) ->
  (st = ST_int -> n <= 2 ^ 31) -> n <= 2 ^ w ->
  tree_sum zero plus (fun i => f (static_cast w st i)) (sched (range 0 n))
  = tree_sum zero plus f (sched (range 0 n)).
Proof.
  intros Hp Hint Hsz. apply tree_sum_ext. intros i Hi.
  apply (partitions_range sched 0 n i Hp) in Hi.
  now rewrite (static_cast_index w st n Hint Hsz i Hi).
Qed.

End FunctorFacts.

(* ================================================================== *)
(** * The dispatchers, column by column *)
(* ================================================================== *)

Lemma Dot_MV_dot_kernel_vector (c : Z) :
  16 < c -> Dot_MV_dot_kernel c = Some (Dot_Vector ST_size_type).
Proof.
  intros Hc. unfold Dot_MV_dot_kernel.
  destruct (Z.ltb_spec 16 c); [reflexivity | lia].
Qed.

Lemma Dot_MV_dot_kernel_unroll (c : Z) :
  2 <= c <= 16 -> Dot_MV_dot_kernel c = Some (Dot_Unroll c ST_size_type).
Proof.
  intros Hc.
  assert (c = 2 \/ c = 3 \/ c = 4 \/ c = 5 \/ c = 6 \/ c = 7 \/ c = 8 \/ c = 9
          \/ c = 10 \/ c = 11 \/ c = 12 \/ c = 13 \/ c = 14 \/ c = 15 \/ c = 16)
    as Hcases by lia.
  repeat (destruct Hcases as [-> | Hcases]; [reflexivity|]).
  now subst c.
Qed.

Lemma Dot_MV_dot_kernel_single :
  Dot_MV_dot_kernel 1 = Some (Dot_Single ST_size_type 0 0 0).
Proof. reflexivity. Qed.

Lemma Dot_MV_dot_kernel_none (c : Z) : c <= 0 -> Dot_MV_dot_kernel c = None.
Proof.
  intros Hc. destruct c as [|p|p]; [reflexivity | lia | reflexivity].
Qed.

Section DispatchFacts.

Context {xvalue_type : Type} {IPT : InnerProductSpaceTraits xvalue_type}.
Variable w : Z.

(** What [Dot_MV::dot] leaves in [r]: entry [k] holds the sum of column
    [k], associated as the schedule says; entries that are no column are
    not written. *)
Lemma Dot_MV_dot_column (sched : scheduler) (scratch r : Z -> dot_type)
    (X Y : View2 xvalue_type) (k : Z) :
  0 <= dimension_0 X < 2 ^ w -> 0 <= dimension_1 X < 2 ^ w ->
  partitions sched (rows_of X) ->
  Dot_MV_dot w sched scratch r X Y k
  = if in_range (dimension_1 X) k
    then tree_sum dot_zero dot_plus
           (fun i => IPT_dot (elem X i k) (elem Y i k)) (sched (rows_of X))
    else r k.
Proof.
  intros Hrows Hcols Hp. unfold Dot_MV_dot.
  set (f := fun i => IPT_dot (elem X i k) (elem Y i k)).
  assert (Hsum : tree_sum dot_zero dot_plus
                   (fun i => f (static_cast w ST_size_type i)) (sched (rows_of X))
                 = tree_sum dot_zero dot_plus f (sched (rows_of X))).
  { apply tree_sum_static_cast; [exact Hp | discriminate | lia]. }
  destruct (Z_lt_le_dec 16 (dimension_1 X)) as [Hbig | Hsmall].
  - rewrite Dot_MV_dot_kernel_vector by exact Hbig. cbn [run_dot_kernel].
    rewrite count_range_exact by exact Hrows.
    rewrite (columnwise_parallel_reduce _ _ _ _ _
               (MV_Dot_Right_FunctorVector_columnwise w ST_size_type X Y)).
    rewrite static_cast_size_small by exact Hcols.
    destruct (in_range (dimension_1 X) k); [exact Hsum | reflexivity].
  - destruct (Z_le_dec 2 (dimension_1 X)) as [Hmid | Hlow].
    + rewrite Dot_MV_dot_kernel_unroll by lia. cbn [run_dot_kernel].
      rewrite count_range_exact by exact Hrows.
      rewrite (columnwise_parallel_reduce _ _ _ _ _
                 (MV_Dot_Right_FunctorUnroll_columnwise w (dimension_1 X)
                    ST_size_type X Y)).
      destruct (in_range (dimension_1 X) k); [exact Hsum | reflexivity].
    + destruct (Z.eq_dec (dimension_1 X) 1) as [Hone | Hzero].
      * rewrite Hone, Dot_MV_dot_kernel_single. cbn [run_dot_kernel].
        rewrite count_range_exact by exact Hrows.
        rewrite V_Dot_Functor_parallel_reduce. unfold in_range, subview_col.
        destruct (Z.eqb_spec k 0) as [-> | Hk].
        -- exact Hsum.
        -- destruct (Z.leb_spec 0 k), (Z.ltb_spec k 1); cbn [andb];
             try reflexivity; lia.
      * rewrite Dot_MV_dot_kernel_none by lia.
        rewrite in_range_nonpos by lia. reflexivity.
Qed.

(** What [Dot_MV::dot (r, X, X_col, Y, Y_col)] leaves in [r]. *)
Lemma Dot_MV_dot_col_entry (sched : scheduler) (scratch r : Z -> dot_type)
    (X : View2 xvalue_type) (X_col : Z) (Y : View2 xvalue_type) (Y_col : Z)
    (k : Z) :
  32 <= w -> 0 <= dimension_0 X < 2 ^ w ->
  partitions sched (rows_of X) ->
  Dot_MV_dot_col w sched scratch r X X_col Y Y_col k
  = if k =? 0
    then tree_sum dot_zero dot_plus
           (fun i => IPT_dot (elem X i X_col) (elem Y i Y_col)) (sched (rows_of X))
    else r k.
Proof.
  intros Hw Hrows Hp. unfold Dot_MV_dot_col, Dot_MV_dot_col_kernel.
  set (f := fun i => IPT_dot (elem X i X_col) (elem Y i Y_col)).
  destruct (index_range_check w (dimension_0 X) (dimension_1 X)) eqn:Hcheck;
    cbn [run_dot_kernel]; rewrite count_range_exact by exact Hrows;
    rewrite V_Dot_Functor_parallel_reduce; unfold subview_col;
    (destruct (k =? 0); [|reflexivity]).
  - apply (index_range_check_spec w _ _ Hw) in Hcheck. unfold INT_MAX in Hcheck.
    apply (tree_sum_static_cast w dot_zero dot_plus f ST_int sched (dimension_0 X));
      [exact Hp | intros _; lia | lia].
  - apply (tree_sum_static_cast w dot_zero dot_plus f ST_size_type sched
             (dimension_0 X)); [exact Hp | discriminate | lia].
Qed.

(** When the row count and the column count both fit [int], entry [k]
    of the result of [nrm2_squared] holds the sum of the squared
    magnitudes of column [k], in both branches. *)
Lemma Nrm2_MV_nrm2_squared_column (sched : scheduler) (scratch r : Z -> mag_type)
    (X : View2 xvalue_type) (k : Z) :
  32 <= w ->
  0 <= dimension_0 X < 2 ^ 31 -> 0 <= dimension_1 X < 2 ^ 31 ->
  partitions sched (rows_of X) ->
  Nrm2_MV_nrm2_squared w sched scratch r X k
  = if in_range (dimension_1 X) k
    then tree_sum mag_zero mag_plus (square_norm X k) (sched (rows_of X))
    else r k.
Proof.
  intros Hw Hrows Hcols Hp. pose proof (pow2_size_ge w Hw) as Hpow.
  unfold Nrm2_MV_nrm2_squared, Nrm2_MV_launch.
  destruct (index_range_check w (dimension_0 X) (dimension_1 X));
    cbn [kernel policy_index run_nrm2_kernel];
    rewrite RangePolicy_int by exact Hrows;
    match goal with
    | |- parallel_reduce _ _ _ (MV_Nrm2Squared_Right_FunctorVector _ ?st _) _ _ = _ =>
        rewrite (columnwise_parallel_reduce _ _ _ _ _
                   (MV_Nrm2Squared_Right_FunctorVector_columnwise w st X));
        rewrite (static_cast_index w st (dimension_1 X + 1)) by (intros; lia);
        destruct (in_range (dimension_1 X) k); [|reflexivity];
        apply (tree_sum_static_cast w mag_zero mag_plus (square_norm X k) st
                 sched (dimension_0 X));
        [exact Hp | intros; lia | lia]
    end.
Qed.

(** A row count from [2^31] to [2^32] fails the check; the functor then
    has the index type [size_type] but the policy is still an [int]
    policy, whose range is empty: the result holds the sum of no row. *)
Lemma Nrm2_MV_nrm2_squared_int_policy (sched : scheduler)
    (scratch r : Z -> mag_type) (X : View2 xvalue_type) (k : Z) :
  32 <= w ->
  2 ^ 31 <= dimension_0 X < 2 ^ 32 -> 0 <= dimension_1 X < 2 ^ w ->
  partitions sched [] ->
  mag_plus mag_zero mag_zero = mag_zero ->
  Nrm2_MV_nrm2_squared w sched scratch r X k
  = if in_range (dimension_1 X) k then mag_zero else r k.
Proof.
  intros Hw Hrows Hcols Hp Hzero.
  unfold Nrm2_MV_nrm2_squared, Nrm2_MV_launch.
  destruct (index_range_check w (dimension_0 X) (dimension_1 X)) eqn:Hcheck.
  - apply (index_range_check_spec w _ _ Hw) in Hcheck. unfold INT_MAX in Hcheck. lia.
  - cbn [kernel policy_index run_nrm2_kernel].
    rewrite RangePolicy_int_overflow by exact Hrows.
    rewrite (columnwise_parallel_reduce _ _ _ _ _
               (MV_Nrm2Squared_Right_FunctorVector_columnwise w ST_size_type X)).
    rewrite static_cast_size_small by exact Hcols.
    destruct (in_range (dimension_1 X) k); [|reflexivity].
    apply tree_sum_no_rows; [exact Hzero|].
    now apply partitions_no_rows.
Qed.

(** No rows and a column count from [2^31] to [2^32]: the check passes
    (the product is 0), the functor holds the column count in an [int],
    where it is negative, and no entry of the result is written. *)
Lemma Nrm2_MV_nrm2_squared_int_value_count (sched : scheduler)
    (scratch r : Z -> mag_type) (X : View2 xvalue_type) (k : Z) :
  32 <= w ->
  dimension_0 X = 0 -> 2 ^ 31 <= dimension_1 X < 2 ^ 32 ->
  Nrm2_MV_nrm2_squared w sched scratch r X k = r k.
Proof.
  intros Hw Hrows Hcols.
  unfold Nrm2_MV_nrm2_squared, Nrm2_MV_launch.
  destruct (index_range_check w (dimension_0 X) (dimension_1 X)) eqn:Hcheck.
  - cbn [kernel policy_index run_nrm2_kernel].
    rewrite (columnwise_parallel_reduce _ _ _ _ _
               (MV_Nrm2Squared_Right_FunctorVector_columnwise w ST_int X)).
    rewrite in_range_nonpos; [reflexivity|].
    cbn [static_cast]. rewrite to_int_overflow by exact Hcols. lia.
  - assert (index_range_check w (dimension_0 X) (dimension_1 X) = true) as Habs.
    { apply (index_range_check_spec w _ _ Hw). rewrite Hrows, Z.mul_0_l, Zmod_0_l.
      unfold INT_MAX. lia. }
    congruence.
Qed.

End DispatchFacts.

(* ================================================================== *)
(** * dot *)
(* ================================================================== *)

Lemma Z_traits_laws : dot_plus_laws Z_traits.
Proof. repeat split; intros; cbn; lia. Qed.

(** C1.  For multivectors [X] and [Y] of equal shape, [dot (r, X, Y)]
    stores in [r(k)], for each column [k], the sequential inner product
    of column [k]: the sum over the rows [i], in order, of
    [dot (X(i,k), Y(i,k))].  The two are equal, hence within every
    tolerance, when one worker reduces all rows in order (for any scalar
    arithmetic, [double] included) and, for every partition of the rows
    among workers and every order of merging, when the scalar addition
    is associative and commutative with zero as identity.  The example
    of the specification is the witness. *)
Theorem dot_is_sequential_inner_product {xvalue_type : Type}
    (IPT : InnerProductSpaceTraits xvalue_type) (w : Z) (sched : scheduler)
    (scratch r : Z -> dot_type) (X Y : View2 xvalue_type) (k : Z) :
  sched = serial \/ (dot_plus_laws IPT /\ partitions sched (rows_of X)) ->
  0 <= dimension_0 X < 2 ^ w ->
  0 <= dimension_1 X < 2 ^ w ->
  dimension_0 Y = dimension_0 X ->
  dimension_1 Y = dimension_1 X ->
  0 <= k < dimension_1 X ->
  Dot_MV_dot w sched scratch r X Y k = sequential_dot X Y k.
Proof.
  intros Hs Hrows Hcols _ _ Hk.
  assert (Hp : partitions sched (rows_of X)).
  { destruct Hs as [-> | [_ Hp]]; [apply serial_partitions | exact Hp]. }
  rewrite (Dot_MV_dot_column w) by assumption.
  rewrite in_range_true by exact Hk.
  destruct Hs as [-> | [(Hassoc & Hcomm & Hzero) _]].
  - reflexivity.
  - now apply tree_sum_partition.
Qed.

Lemma dot_is_sequential_inner_product_witness :
  Dot_MV_dot (IPT := Z_traits) 64 strided scratch_five r_seven
    X_example Y_example 0 = 6
  /\ Dot_MV_dot (IPT := Z_traits) 64 strided scratch_five r_seven
       X_example Y_example 1 = 10.
Proof.
  split.
  - etransitivity.
    + apply (dot_is_sequential_inner_product Z_traits 64);
        [ right; split; [exact Z_traits_laws | apply strided_partitions]
        | cbn; lia | cbn; lia | reflexivity | reflexivity | cbn; lia ].
    + reflexivity.
  - etransitivity.
    + apply (dot_is_sequential_inner_product Z_traits 64);
        [ right; split; [exact Z_traits_laws | apply strided_partitions]
        | cbn; lia | cbn; lia | reflexivity | reflexivity | cbn; lia ].
    + reflexivity.
Defined.

(** The example of the specification in binary64 arithmetic: [dot] gives
    [6, 10] and [nrm2_squared] gives [35, 56], and no other entry of the
    result is written. *)
Example dot_example_double :
  let r := Dot_MV_dot (IPT := double_traits) 64 strided
             (fun _ => 5%float) (fun _ => 7%float)
             X_example_double Y_example_double in
  (r 0, r 1, r 2) = (6%float, 10%float, 7%float).
Proof. vm_compute. reflexivity. Qed.

Example nrm2_squared_example_double :
  let r := Nrm2_MV_nrm2_squared (IPT := double_traits) 64 halves_swapped
             (fun _ => 5%float) (fun _ => 7%float) X_example_double in
  (r 0, r 1, r 2) = (35%float, 56%float, 7%float).
Proof. vm_compute. reflexivity. Qed.

(** C8.  For a column count [c] from 1 to 16 and the same [X] and [Y],
    the functor unrolled [c] times and the functor with the runtime
    column loop leave the same value in every entry of the result: equal
    under the same schedule for any scalar arithmetic, and under any two
    partitions of the rows when the scalar addition is associative and
    commutative with zero as identity. *)
Theorem unrolled_matches_runtime_loop {xvalue_type : Type}
    (IPT : InnerProductSpaceTraits xvalue_type) (w : Z) (s1 s2 : scheduler)
    (scratch1 scratch2 r : Z -> dot_type) (X Y : View2 xvalue_type)
    (numRows c k : Z) :
  32 <= w ->
  1 <= c <= 16 ->
  dimension_1 X = c ->
  s1 = s2
  \/ (dot_plus_laws IPT
      /\ partitions s1 (policy_rows (count_range w numRows))
      /\ partitions s2 (policy_rows (count_range w numRows))) ->
  run_dot_kernel w s1 scratch1 numRows (Dot_Unroll c ST_size_type) r X Y k
  = run_dot_kernel w s2 scratch2 numRows (Dot_Vector ST_size_type) r X Y k.
Proof.
  intros Hw Hc Hdim Hs. cbn [run_dot_kernel].
  rewrite (columnwise_parallel_reduce _ _ _ _ _
             (MV_Dot_Right_FunctorUnroll_columnwise w c ST_size_type X Y)).
  rewrite (columnwise_parallel_reduce _ _ _ _ _
             (MV_Dot_Right_FunctorVector_columnwise w ST_size_type X Y)).
  rewrite Hdim, static_cast_size_small
    by (pose proof (pow2_size_ge w Hw); lia).
  destruct (in_range c k); [|reflexivity].
  destruct Hs as [-> | ((Hassoc & Hcomm & Hzero) & Hp1 & Hp2)]; [reflexivity|].
  rewrite (tree_sum_partition dot_zero dot_plus Hassoc Hcomm Hzero _ s1) by exact Hp1.
  rewrite (tree_sum_partition dot_zero dot_plus Hassoc Hcomm Hzero _ s2) by exact Hp2.
  reflexivity.
Qed.

Lemma unrolled_matches_runtime_loop_witness :
  run_dot_kernel (IPT := Z_traits) 64 strided scratch_five 3
    (Dot_Unroll 2 ST_size_type) r_seven X_example Y_example 1
  = run_dot_kernel (IPT := Z_traits) 64 halves_swapped r_seven 3
      (Dot_Vector ST_size_type) r_seven X_example Y_example 1.
Proof.
  apply (unrolled_matches_runtime_loop Z_traits 64);
    [ lia | lia | reflexivity
    | right; split;
      [ exact Z_traits_laws
      | split; [apply strided_partitions | apply halves_swapped_partitions] ] ].
Defined.

(* ================================================================== *)
(** * nrm2_squared *)
(* ================================================================== *)

(** When the row count and the column count both fit [int],
    [nrm2_squared] stores the real part of what [dot] stores for the
    pair [(X, X)], under the same schedule. *)
Lemma Nrm2_MV_nrm2_squared_real_part_dot {xvalue_type : Type}
    {IPT : InnerProductSpaceTraits xvalue_type} (w : Z)
    (re : dot_type -> mag_type) (sched : scheduler)
    (scratch_m r_m : Z -> mag_type) (scratch_d r_d : Z -> dot_type)
    (X : View2 xvalue_type) (k : Z) :
  32 <= w ->
  real_part_laws IPT re ->
  partitions sched (rows_of X) ->
  0 <= dimension_0 X < 2 ^ 31 -> 0 <= dimension_1 X < 2 ^ 31 ->
  0 <= k < dimension_1 X ->
  Nrm2_MV_nrm2_squared w sched scratch_m r_m X k
  = re (Dot_MV_dot w sched scratch_d r_d X X k).
Proof.
  intros Hw (Hzero & Hplus & Hsq) Hp Hrows Hcols Hk.
  pose proof (pow2_size_ge w Hw) as Hpow.
  rewrite Nrm2_MV_nrm2_squared_column by assumption.
  rewrite (Dot_MV_dot_column w) by (try assumption; lia).
  rewrite in_range_true by exact Hk.
  rewrite (tree_sum_map dot_zero dot_plus re mag_zero mag_plus) by assumption.
  apply tree_sum_ext. intros i _. unfold square_norm. now rewrite Hsq.
Qed.

Lemma Z_traits_real_part : real_part_laws Z_traits (fun a : Z => a).
Proof.
  repeat split; intros; cbn.
  symmetry. apply Z.abs_square.
Qed.

Example nrm2_squared_real_part_dot_example :
  Nrm2_MV_nrm2_squared (IPT := Z_traits) 64 strided scratch_five r_seven X_example 1
  = Dot_MV_dot (IPT := Z_traits) 64 strided r_seven scratch_five
      X_example X_example 1.
Proof.
  apply (Nrm2_MV_nrm2_squared_real_part_dot (IPT := Z_traits) 64 (fun a : Z => a));
    [ lia | exact Z_traits_real_part | apply strided_partitions
    | cbn; lia | cbn; lia | cbn; lia ].
Qed.

(** Under the same bounds, and with one worker or exact addition,
    [nrm2_squared] stores the sequential squared 2-norm of each column. *)
Lemma Nrm2_MV_nrm2_squared_sequential {xvalue_type : Type}
    {IPT : InnerProductSpaceTraits xvalue_type} (w : Z) (sched : scheduler)
    (scratch r : Z -> mag_type) (X : View2 xvalue_type) (k : Z) :
  32 <= w ->
  sched = serial \/ (mag_plus_laws IPT /\ partitions sched (rows_of X)) ->
  0 <= dimension_0 X < 2 ^ 31 -> 0 <= dimension_1 X < 2 ^ 31 ->
  0 <= k < dimension_1 X ->
  Nrm2_MV_nrm2_squared w sched scratch r X k = sequential_nrm2_squared X k.
Proof.
  intros Hw Hs Hrows Hcols Hk.
  assert (Hp : partitions sched (rows_of X)).
  { destruct Hs as [-> | [_ Hp]]; [apply serial_partitions | exact Hp]. }
  rewrite Nrm2_MV_nrm2_squared_column by assumption.
  rewrite in_range_true by exact Hk.
  destruct Hs as [-> | [(Hassoc & Hcomm & Hzero) _]].
  - reflexivity.
  - now apply (tree_sum_partition mag_zero mag_plus).
Qed.

Example nrm2_squared_example :
  let r := Nrm2_MV_nrm2_squared (IPT := Z_traits) 64 strided
             scratch_five r_seven X_example in
  (r 0, r 1, r 2) = (35, 56, 7).
Proof. reflexivity. Qed.

(** In [fill] the policy has the index type of the functor in both
    branches; in [nrm2_squared] the policy is an [int] policy in both. *)
Lemma Fill_MV_launch_indices (w numRows numCols : Z) :
  policy_index (Fill_MV_launch w numRows numCols)
  = fill_kernel_index (kernel (Fill_MV_launch w numRows numCols)).
Proof.
  unfold Fill_MV_launch. now destruct (index_range_check w numRows numCols).
Qed.

Lemma Nrm2_MV_launch_policy (w numRows numCols : Z) :
  policy_index (Nrm2_MV_launch w numRows numCols) = ST_int.
Proof.
  unfold Nrm2_MV_launch. now destruct (index_range_check w numRows numCols).
Qed.

(** Columns of ones, in exact integer arithmetic. *)
Lemma fold_left_ones (f : Z -> Z) (rows : list Z) (a : Z) :
  (forall i, f i = 1) ->
  fold_left (fun sum i => sum + f i) rows a = a + Z.of_nat (length rows).
Proof.
  intros Hf. revert a. induction rows as [|i rows IH]; intros a;
    cbn [fold_left length].
  - lia.
  - rewrite IH, Hf. lia.
Qed.

Lemma Dot_MV_dot_ones (w : Z) (sched : scheduler) (scratch r : Z -> Z)
    (numRows numCols k : Z) :
  0 <= numRows < 2 ^ w -> 0 <= numCols < 2 ^ w -> 0 <= k < numCols ->
  partitions sched (range 0 numRows) ->
  Dot_MV_dot (IPT := Z_traits) w sched scratch r
    (ones numRows numCols) (ones numRows numCols) k = numRows.
Proof.
  intros Hrows Hcols Hk Hp.
  rewrite Dot_MV_dot_column by (cbn [ones dimension_0 dimension_1]; assumption).
  cbn [ones dimension_0 dimension_1 elem rows_of].
  rewrite in_range_true by exact Hk.
  rewrite (tree_sum_partition 0 Z.add Z.add_assoc Z.add_comm Z.add_0_r)
    by exact Hp.
  rewrite (fold_left_ones (fun _ => 1 * 1)) by reflexivity.
  unfold rows_of. cbn [ones dimension_0]. rewrite range_length. lia.
Qed.

(** C2.  The code at a column of [2^31] ones: [nrm2_squared] takes the
    branch for large shapes, whose range policy is an [int] policy that
    cannot hold the row count, reduces no row and stores 0, whereas
    [dot] of the column with itself stores [2^31]; so what
    [nrm2_squared] stores is not the real part of [dot (x, x)] there,
    however the rows are scheduled. *)
Theorem nrm2_squared_tall_column_is_not_dot (sched : scheduler)
    (scratch r : Z -> Z) :
  partitions sched [] ->
  partitions sched (range 0 2147483648) ->
  Nrm2_MV_nrm2_squared (IPT := Z_traits) 64 sched scratch r X_tall 0 = 0
  /\ Dot_MV_dot (IPT := Z_traits) 64 sched scratch r X_tall X_tall 0 = 2147483648.
Proof.
  intros Hnone Hall. split.
  - rewrite Nrm2_MV_nrm2_squared_int_policy;
      [ reflexivity | lia | cbn [X_tall ones dimension_0]; lia
      | cbn [X_tall ones dimension_1]; lia | exact Hnone | reflexivity ].
  - unfold X_tall. apply Dot_MV_dot_ones; [lia | lia | lia | exact Hall].
Qed.

Lemma nrm2_squared_tall_column_is_not_dot_witness :
  Nrm2_MV_nrm2_squared (IPT := Z_traits) 64 serial scratch_five r_seven X_tall 0 = 0
  /\ Dot_MV_dot (IPT := Z_traits) 64 serial scratch_five r_seven X_tall X_tall 0
     = 2147483648.
Proof.
  apply nrm2_squared_tall_column_is_not_dot; apply serial_partitions.
Defined.

(** C9.  The code at a multivector of no rows and [2^31] columns:
    [nrm2_squared] takes the [int] branch (the product of the
    dimensions is 0), the functor holds the column count in an [int],
    where it is negative, so [init] and [final] do nothing and the result
    keeps its old contents (here 7) instead of zero; [dot] stores zero. *)
Theorem nrm2_squared_no_rows_result_unwritten (sched : scheduler)
    (scratch : Z -> Z) :
  partitions sched [] ->
  Nrm2_MV_nrm2_squared (IPT := Z_traits) 64 sched scratch r_seven X_flat 0 = 7
  /\ Dot_MV_dot (IPT := Z_traits) 64 sched scratch r_seven X_flat X_flat 0 = 0.
Proof.
  intros Hnone. split.
  - rewrite Nrm2_MV_nrm2_squared_int_value_count;
      [reflexivity | lia | reflexivity | cbn [X_flat ones dimension_1]; lia].
  - unfold X_flat. apply Dot_MV_dot_ones; [lia | lia | lia | exact Hnone].
Qed.

Lemma nrm2_squared_no_rows_result_unwritten_witness :
  Nrm2_MV_nrm2_squared (IPT := Z_traits) 64 strided scratch_five r_seven X_flat 0 = 7
  /\ Dot_MV_dot (IPT := Z_traits) 64 strided scratch_five r_seven X_flat X_flat 0 = 0.
Proof.
  apply nrm2_squared_no_rows_result_unwritten. apply strided_partitions.
Defined.

(* ================================================================== *)
(** * No rows *)
(* ================================================================== *)

(** [dot] of multivectors without rows stores zero for every column. *)
Lemma Dot_MV_dot_no_rows {xvalue_type : Type}
    {IPT : InnerProductSpaceTraits xvalue_type} (w : Z) (sched : scheduler)
    (scratch r : Z -> dot_type) (X Y : View2 xvalue_type) (k : Z) :
  dot_plus dot_zero dot_zero = dot_zero ->
  partitions sched [] ->
  dimension_0 X = 0 -> 0 <= dimension_1 X < 2 ^ w -> 0 <= k < dimension_1 X ->
  Dot_MV_dot w sched scratch r X Y k = dot_zero.
Proof.
  intros Hzero Hp Hrows Hcols Hk.
  assert (Hnone : rows_of X = []) by (unfold rows_of; now rewrite Hrows).
  rewrite Dot_MV_dot_column by (rewrite ?Hnone; assumption || lia).
  rewrite in_range_true by exact Hk. rewrite Hnone.
  apply tree_sum_no_rows; [exact Hzero | now apply partitions_no_rows].
Qed.

(** So does [nrm2_squared], for a column count that fits [int]. *)
Lemma Nrm2_MV_nrm2_squared_no_rows {xvalue_type : Type}
    {IPT : InnerProductSpaceTraits xvalue_type} (w : Z) (sched : scheduler)
    (scratch r : Z -> mag_type) (X : View2 xvalue_type) (k : Z) :
  32 <= w ->
  mag_plus mag_zero mag_zero = mag_zero ->
  partitions sched [] ->
  dimension_0 X = 0 -> 0 <= dimension_1 X < 2 ^ 31 -> 0 <= k < dimension_1 X ->
  Nrm2_MV_nrm2_squared w sched scratch r X k = mag_zero.
Proof.
  intros Hw Hzero Hp Hrows Hcols Hk.
  assert (Hnone : rows_of X = []) by (unfold rows_of; now rewrite Hrows).
  rewrite Nrm2_MV_nrm2_squared_column by (rewrite ?Hnone; assumption || lia).
  rewrite in_range_true by exact Hk. rewrite Hnone.
  apply tree_sum_no_rows; [exact Hzero | now apply partitions_no_rows].
Qed.

(* ================================================================== *)
(** * fill *)
(* ================================================================== *)

(** Whether row [i] is among the rows that a partition of a range hands
    out. *)
Lemma existsb_assigned (sched : scheduler) (b e i : Z) :
  partitions sched (range b e) ->
  existsb (Z.eqb i) (assigned (sched (range b e))) = (b <=? i) && (i <? e).
Proof.
  intros Hp.
  destruct (existsb (Z.eqb i) (assigned (sched (range b e)))) eqn:E.
  - apply existsb_exists in E as (x & Hx & Heq).
    apply Z.eqb_eq in Heq. subst x. apply (partitions_range sched b e i Hp) in Hx.
    symmetry. apply andb_true_iff. split; [apply Z.leb_le | apply Z.ltb_lt]; lia.
  - destruct (Z.leb_spec b i), (Z.ltb_spec i e); try reflexivity.
    assert (existsb (Z.eqb i) (assigned (sched (range b e))) = true) as Habs;
      [|congruence].
    apply existsb_exists. exists i. split; [|apply Z.eqb_refl].
    apply (Permutation_in i (Permutation_sym Hp)), In_range. lia.
Qed.

(** The row loop around the column loop of the fill functor: the rows
    may come in any order. *)
Lemma fold_left_fill_rows {A : Type} (v : A) (numCols : Z) (rows : list Z)
    (m : Z -> Z -> A) (i' j' : Z) :
  fold_left (fun m i => for_loop numCols (fun j m => upd2 m i j v) m) rows m i' j'
  = if existsb (Z.eqb i') rows && in_range numCols j' then v else m i' j'.
Proof.
  revert m. induction rows as [|i rows IH]; intros m; cbn [fold_left existsb].
  - reflexivity.
  - rewrite IH, for_loop_upd2.
    destruct (i' =? i), (existsb (Z.eqb i') rows), (in_range numCols j');
      reflexivity.
Qed.

(** A fill functor whose index type holds the row indices and the
    column count assigns [val] to the elements of the rows it is given. *)
Lemma MV_FillFunctor_rows {A : Type} (w : Z) (st : SizeType) (sched : scheduler)
    (X : View2 A) (val : A) (numRows : Z) (m : Z -> Z -> A) (i j : Z) :
  partitions sched (range 0 numRows) ->
  (forall k, 0 <= k < numRows -> static_cast w st k = k) ->
  static_cast w st (dimension_1 X) = dimension_1 X ->
  parallel_for sched (0, numRows) (MV_FillFunctor w st X val) m i j
  = if in_range numRows i && in_range (dimension_1 X) j then val else m i j.
Proof.
  intros Hp Hcast Hcols. unfold parallel_for, MV_FillFunctor, policy_rows.
  cbn [fst snd]. rewrite Hcols.
  rewrite (fold_left_ext_in _
             (fun m i => for_loop (dimension_1 X) (fun j m => upd2 m i j val) m)).
  - rewrite fold_left_fill_rows, existsb_assigned by exact Hp. reflexivity.
  - intros a k Hk. apply (partitions_range sched 0 numRows k Hp) in Hk.
    cbv zeta. now rewrite Hcast.
Qed.

(** A fill functor for a multivector without columns assigns nothing. *)
Lemma MV_FillFunctor_no_columns {A : Type} (w : Z) (st : SizeType)
    (sched : scheduler) (X : View2 A) (val : A) (policy : Z * Z)
    (m : Z -> Z -> A) :
  dimension_1 X = 0 ->
  parallel_for sched policy (MV_FillFunctor w st X val) m = m.
Proof.
  intros Hcols. unfold parallel_for, MV_FillFunctor.
  rewrite Hcols, static_cast_zero.
  apply fold_left_id. intros a i. apply for_loop_nonpos. lia.
Qed.

(** Nor does any functor when the policy has no rows. *)
Lemma parallel_for_no_rows {S : Type} (sched : scheduler) (op : Z -> S -> S) (s : S) :
  partitions sched [] -> parallel_for sched (0, 0) op s = s.
Proof.
  intros Hp. unfold parallel_for, policy_rows. cbn [fst snd].
  change (range 0 0) with (@nil Z). now rewrite partitions_no_rows.
Qed.

(** What [Fill_MV::fill] leaves in [X], when the size type holds both
    dimensions and the [int] functor, where the check selects it, holds
    the column count. *)
Lemma Fill_MV_fill_elem {A : Type} (w : Z) (sched : scheduler) (X : View2 A)
    (val : A) (i j : Z) :
  32 <= w ->
  0 <= dimension_0 X < 2 ^ w -> 0 <= dimension_1 X < 2 ^ w ->
  (index_range_check w (dimension_0 X) (dimension_1 X) = true ->
   dimension_1 X < 2 ^ 31) ->
  partitions sched (rows_of X) ->
  elem (Fill_MV_fill w sched X val) i j
  = if in_range (dimension_0 X) i && in_range (dimension_1 X) j
    then val else elem X i j.
Proof.
  intros Hw Hrows Hcols Hint Hpart. pose proof (pow2_size_ge w Hw) as Hp.
  unfold Fill_MV_fill, Fill_MV_launch. cbn [elem].
  destruct (index_range_check w (dimension_0 X) (dimension_1 X)) eqn:Hcheck;
    cbn [kernel policy_index run_fill_kernel].
  - specialize (Hint eq_refl).
    apply (index_range_check_spec w _ _ Hw) in Hcheck. unfold INT_MAX in Hcheck.
    rewrite RangePolicy_int by lia.
    apply MV_FillFunctor_rows;
      [ exact Hpart
      | apply static_cast_index; [intros _|]; lia
      | cbn [static_cast]; apply to_int_small; lia ].
  - rewrite RangePolicy_size_type by lia.
    apply MV_FillFunctor_rows;
      [ exact Hpart
      | apply static_cast_index; [discriminate | lia]
      | apply static_cast_size_small; lia ].
Qed.

(** X19.  After [fill (X, v)] every element [X(i,j)] with
    [0 <= i < rows] and [0 <= j < columns] equals [v], in the [int]
    branch and in the [size_type] branch alike and however the rows are
    handed out to the workers, whenever the size type holds both
    dimensions and the check does not select [int] for a column count of
    [2^31] or more. *)
Theorem fill_assigns_every_element {A : Type} (w : Z) (sched : scheduler)
    (X : View2 A) (v : A) (i j : Z) :
  32 <= w ->
  0 <= dimension_0 X < 2 ^ w ->
  0 <= dimension_1 X < 2 ^ w ->
  (index_range_check w (dimension_0 X) (dimension_1 X) = true ->
   dimension_1 X < 2 ^ 31) ->
  partitions sched (rows_of X) ->
  0 <= i < dimension_0 X ->
  0 <= j < dimension_1 X ->
  elem (Fill_MV_fill w sched X v) i j = v.
Proof.
  intros Hw Hrows Hcols Hint Hp Hi Hj.
  rewrite Fill_MV_fill_elem by assumption.
  now rewrite !in_range_true.
Qed.

(** A shape that takes the [size_type] branch. *)
Example Fill_MV_launch_tall :
  Fill_MV_launch 64 (dimension_0 X_tall) (dimension_1 X_tall)
  = mkLaunch (Fill_Functor ST_size_type) ST_size_type.
Proof. reflexivity. Qed.

Lemma fill_assigns_every_element_witness :
  elem (Fill_MV_fill 64 serial X_tall 9) 2147483647 0 = 9
  /\ elem (Fill_MV_fill 32 strided (ones 65536 65536) 9) 65535 65535 = 9.
Proof.
  split.
  - apply fill_assigns_every_element;
      [ lia
      | cbn [X_tall ones dimension_0]; lia
      | cbn [X_tall ones dimension_1]; lia
      | intros _; cbn [X_tall ones dimension_1]; lia
      | apply serial_partitions
      | cbn [X_tall ones dimension_0]; lia
      | cbn [X_tall ones dimension_1]; lia ].
  - apply fill_assigns_every_element;
      [ lia
      | cbn [ones dimension_0]; lia
      | cbn [ones dimension_1]; lia
      | intros _; cbn [ones dimension_1]; lia
      | apply strided_partitions
      | cbn [ones dimension_0]; lia
      | cbn [ones dimension_1]; lia ].
Defined.

(** C3.  A shape on which [fill] assigns nothing.  When the check holds
    although the column count is from [2^31] to [2^32] (the product of
    the check has wrapped around), the [int] functor holds the column
    count in an [int], where it is negative: the column loop of every
    row runs zero times and every element keeps its old value, under
    every schedule.  With a 32-bit size type, 2 rows and [2^31] columns
    are such a shape. *)
Theorem fill_assigns_nothing_when_the_check_wraps {A : Type} (w : Z)
    (sched : scheduler) (X : View2 A) (v : A) (i j : Z) :
  index_range_check w (dimension_0 X) (dimension_1 X) = true ->
  2 ^ 31 <= dimension_1 X < 2 ^ 32 ->
  elem (Fill_MV_fill w sched X v) i j = elem X i j.
Proof.
  intros Hcheck Hcols. unfold Fill_MV_fill, Fill_MV_launch. rewrite Hcheck.
  cbn [kernel policy_index run_fill_kernel elem].
  unfold parallel_for, MV_FillFunctor. cbn [static_cast].
  rewrite to_int_overflow by exact Hcols.
  rewrite fold_left_id; [reflexivity|].
  intros a i0. apply for_loop_nonpos. lia.
Qed.

Lemma fill_assigns_nothing_when_the_check_wraps_witness :
  index_range_check 32 2 2147483648 = true
  /\ elem (Fill_MV_fill 32 strided (ones 2 2147483648) 9) 0 0 = 1
  /\ elem (Fill_MV_fill 32 strided (ones 2 2147483648) 9) 1 2147483647 = 1.
Proof.
  split; [reflexivity|]. split.
  - apply (fill_assigns_nothing_when_the_check_wraps 32 strided
             (ones 2 2147483648) 9 0 0);
      [ reflexivity | cbn [ones dimension_1]; lia ].
  - apply (fill_assigns_nothing_when_the_check_wraps 32 strided
             (ones 2 2147483648) 9 1 2147483647);
      [ reflexivity | cbn [ones dimension_1]; lia ].
Defined.

(** A shape that takes the [int] branch, evaluated. *)
Example Fill_MV_fill_example :
  let X := Fill_MV_fill 64 strided X_example 9 in
  (elem X 0 0, elem X 2 1, elem X 3 0, elem X 0 2) = (9, 9, 0, 0).
Proof. reflexivity. Qed.

(** [fill] on a multivector without rows changes nothing. *)
Lemma Fill_MV_fill_no_rows {A : Type} (w : Z) (sched : scheduler)
    (X : View2 A) (v : A) :
  partitions sched [] ->
  dimension_0 X = 0 -> Fill_MV_fill w sched X v = X.
Proof.
  intros Hp Hrows. destruct X as [rows cols m]. cbn [dimension_0] in Hrows.
  subst rows.
  unfold Fill_MV_fill, Fill_MV_launch. cbn [dimension_0 dimension_1 elem].
  destruct (index_range_check w 0 cols);
    cbn [kernel policy_index run_fill_kernel];
    rewrite RangePolicy_no_rows, parallel_for_no_rows by exact Hp; reflexivity.
Qed.

(** C10.  With a column count of 0 the batched [dot] instantiates no
    functor (the [switch] has no case for 0) and leaves the result as it
    was; [fill] writes no element and leaves the multivector as it was. *)
Theorem no_columns_nothing_written {xvalue_type : Type}
    (IPT : InnerProductSpaceTraits xvalue_type) (w : Z) (sched : scheduler)
    (scratch r : Z -> dot_type) (X Y : View2 xvalue_type) (val : xvalue_type) :
  dimension_1 X = 0 ->
  Dot_MV_dot_kernel (dimension_1 X) = None
  /\ Dot_MV_dot w sched scratch r X Y = r
  /\ Fill_MV_fill w sched X val = X.
Proof.
  intros Hcols. repeat split.
  - now rewrite Hcols.
  - unfold Dot_MV_dot. now rewrite Hcols.
  - unfold Fill_MV_fill, Fill_MV_launch.
    destruct (index_range_check w (dimension_0 X) (dimension_1 X));
      cbn [kernel policy_index run_fill_kernel];
      rewrite MV_FillFunctor_no_columns by exact Hcols;
      now destruct X.
Qed.

Lemma no_columns_nothing_written_witness :
  Dot_MV_dot_kernel (dimension_1 (ones 3 0)) = None
  /\ Dot_MV_dot (IPT := Z_traits) 64 strided scratch_five r_seven
       (ones 3 0) (ones 3 0) = r_seven
  /\ Fill_MV_fill 64 strided (ones 3 0) 9 = ones 3 0.
Proof.
  apply (no_columns_nothing_written Z_traits). reflexivity.
Defined.

(* ================================================================== *)
(** * Which functor, which index type *)
(* ================================================================== *)

(** C4, as stated, fails for the batched [dot]: for 3 rows and 2 columns
    the check holds, yet the functor has the index type [size_type]. *)
Lemma dot_ignores_index_range_check :
  ~ (forall numRows numVecs k,
        Dot_MV_dot_kernel numVecs = Some k ->
        (dot_kernel_index k = ST_int
         <-> index_range_check 64 numRows numVecs = true)).
Proof.
  intros H. destruct (H 3 2 _ eq_refl) as [_ Hint].
  discriminate (Hint eq_refl).
Qed.

(** Every functor of the batched [dot] has the index type [size_type]. *)
Lemma Dot_MV_dot_kernel_index (numVecs : Z) (k : DotKernel) :
  Dot_MV_dot_kernel numVecs = Some k -> dot_kernel_index k = ST_size_type.
Proof.
  intros Hk.
  destruct (Z_lt_le_dec 16 numVecs) as [Hbig | Hsmall];
    [ rewrite Dot_MV_dot_kernel_vector in Hk by exact Hbig
    | destruct (Z_le_dec 2 numVecs) as [Hmid | Hlow];
      [ rewrite Dot_MV_dot_kernel_unroll in Hk by lia
      | destruct (Z.eq_dec numVecs 1) as [-> | Hne];
        [ rewrite Dot_MV_dot_kernel_single in Hk
        | rewrite Dot_MV_dot_kernel_none in Hk by lia ] ] ];
    inversion Hk; reflexivity.
Qed.

(** C4, amended.  [nrm2_squared] instantiates its functor with the index
    type [int] exactly when the check holds ([rows < INT_MAX] and
    [rows * columns], as computed in the size type, [< INT_MAX]), in
    which case its range policy is an [int] policy too, and with
    [size_type] otherwise.  The batched [dot] applies no check: whatever
    the shape, every functor it instantiates has the index type
    [size_type]. *)
Theorem index_type_selection (w numRows numCols : Z) :
  (nrm2_kernel_index (kernel (Nrm2_MV_launch w numRows numCols)) = ST_int
   <-> index_range_check w numRows numCols = true)
  /\ (nrm2_kernel_index (kernel (Nrm2_MV_launch w numRows numCols)) = ST_size_type
      <-> index_range_check w numRows numCols = false)
  /\ (index_range_check w numRows numCols = true ->
      policy_index (Nrm2_MV_launch w numRows numCols) = ST_int)
  /\ (forall k, Dot_MV_dot_kernel numCols = Some k ->
                dot_kernel_index k = ST_size_type).
Proof.
  unfold Nrm2_MV_launch.
  destruct (index_range_check w numRows numCols);
    cbn [kernel policy_index nrm2_kernel_index];
    (repeat split; try congruence; try discriminate);
    apply Dot_MV_dot_kernel_index.
Qed.

Lemma index_type_selection_witness :
  nrm2_kernel_index (kernel (Nrm2_MV_launch 64 3 2)) = ST_int
  /\ policy_index (Nrm2_MV_launch 64 3 2) = ST_int
  /\ dot_kernel_index (Dot_Unroll 2 ST_size_type) = ST_size_type.
Proof.
  destruct (index_type_selection 64 3 2) as (Hint & _ & Hpolicy & Hdot).
  split; [apply Hint; reflexivity|].
  split; [apply Hpolicy; reflexivity|].
  apply Hdot. reflexivity.
Defined.

(** The batched [dot] has an unrolled variant for each count from 2 to 16. *)
Lemma Dot_MV_dot_kernel_shape_unrolled (c : Z) :
  2 <= c <= 16 ->
  option_map dot_kernel_shape (Dot_MV_dot_kernel c) = Some (Unrolled c).
Proof.
  intros Hc. now rewrite Dot_MV_dot_kernel_unroll.
Qed.

(** C5, as stated, fails for [nrm2_squared]: it has no unrolled variant. *)
Lemma nrm2_squared_has_no_unrolled_variant :
  ~ (forall numRows c,
        2 <= c <= 16 ->
        nrm2_kernel_shape (kernel (Nrm2_MV_launch 64 numRows c)) = Unrolled c).
Proof.
  intros H. specialize (H 3 2 ltac:(lia)). discriminate H.
Qed.

(** C5, amended.  For every column count [c >= 1] the batched [dot]
    instantiates the runtime-column-loop functor if [c > 16], the functor
    unrolled [c] times if [2 <= c <= 16], and for [c = 1] the
    single-vector functor on the 0-D view of [r(0)] and on column 0 of
    [X] and of [Y].  [nrm2_squared] instantiates the runtime-column-loop
    functor for every [c]. *)
Theorem functor_selection (w numRows c : Z) :
  1 <= c ->
  Dot_MV_dot_kernel c
  = Some (if 16 <? c then Dot_Vector ST_size_type
          else if c =? 1 then Dot_Single ST_size_type 0 0 0
          else Dot_Unroll c ST_size_type)
  /\ nrm2_kernel_shape (kernel (Nrm2_MV_launch w numRows c)) = RuntimeLoop.
Proof.
  intros Hc. split.
  - destruct (Z.ltb_spec 16 c) as [Hbig | Hsmall].
    + now apply Dot_MV_dot_kernel_vector.
    + destruct (Z.eqb_spec c 1) as [-> | Hne].
      * reflexivity.
      * apply Dot_MV_dot_kernel_unroll. lia.
  - now destruct (kernel (Nrm2_MV_launch w numRows c)).
Qed.

Lemma functor_selection_witness :
  (Dot_MV_dot_kernel 17 = Some (Dot_Vector ST_size_type)
   /\ nrm2_kernel_shape (kernel (Nrm2_MV_launch 64 5 17)) = RuntimeLoop)
  /\ (Dot_MV_dot_kernel 16 = Some (Dot_Unroll 16 ST_size_type)
      /\ nrm2_kernel_shape (kernel (Nrm2_MV_launch 64 5 16)) = RuntimeLoop)
  /\ (Dot_MV_dot_kernel 1 = Some (Dot_Single ST_size_type 0 0 0)
      /\ nrm2_kernel_shape (kernel (Nrm2_MV_launch 64 5 1)) = RuntimeLoop).
Proof.
  split; [|split].
  - apply (functor_selection 64 5 17). lia.
  - apply (functor_selection 64 5 16). lia.
  - apply (functor_selection 64 5 1). lia.
Defined.

(* ================================================================== *)
(** * The single-pair overload of dot *)
(* ================================================================== *)

(** C6, as stated, fails: the check of the single-pair overload is not
    the check for a column count of 1.  For 2 rows and [2^31] columns
    the functor has the index type [size_type], whereas 2 rows of 1
    column pass the check. *)
Lemma dot_pair_check_uses_column_count :
  ~ (forall numRows numCols X_col Y_col,
        dot_kernel_index (Dot_MV_dot_col_kernel 64 numRows numCols X_col Y_col)
        = if index_range_check 64 numRows 1 then ST_int else ST_size_type).
Proof.
  intros H. specialize (H 2 2147483648 0 0). discriminate H.
Qed.

(** C6, amended.  The single-pair overload instantiates the
    single-vector functor on the 0-D view of [r(0)] and on the columns
    [X_col] of [X] and [Y_col] of [Y], with the index type given by its
    own check on the row count and the total column count of [X].  It
    stores the inner product of the two columns in [r(0)] and writes no
    other entry. *)
Theorem dot_pair_overload {xvalue_type : Type}
    (IPT : InnerProductSpaceTraits xvalue_type) (w : Z) (sched : scheduler)
    (scratch r : Z -> dot_type) (X : View2 xvalue_type) (X_col : Z)
    (Y : View2 xvalue_type) (Y_col : Z) :
  32 <= w ->
  0 <= dimension_0 X < 2 ^ w ->
  sched = serial \/ (dot_plus_laws IPT /\ partitions sched (rows_of X)) ->
  Dot_MV_dot_col_kernel w (dimension_0 X) (dimension_1 X) X_col Y_col
  = Dot_Single
      (if index_range_check w (dimension_0 X) (dimension_1 X)
       then ST_int else ST_size_type)
      0 X_col Y_col
  /\ Dot_MV_dot_col w sched scratch r X X_col Y Y_col 0
     = sequential_dot_pair X X_col Y Y_col
  /\ (forall k, k <> 0 -> Dot_MV_dot_col w sched scratch r X X_col Y Y_col k = r k).
Proof.
  intros Hw Hrows Hs.
  assert (Hp : partitions sched (rows_of X)).
  { destruct Hs as [-> | [_ Hp]]; [apply serial_partitions | exact Hp]. }
  repeat split.
  - unfold Dot_MV_dot_col_kernel.
    now destruct (index_range_check w (dimension_0 X) (dimension_1 X)).
  - rewrite Dot_MV_dot_col_entry by assumption. cbn [Z.eqb].
    destruct Hs as [-> | [(Hassoc & Hcomm & Hzero) _]].
    + reflexivity.
    + now apply tree_sum_partition.
  - intros k Hk. rewrite Dot_MV_dot_col_entry by assumption.
    destruct (Z.eqb_spec k 0); [contradiction | reflexivity].
Qed.

Lemma dot_pair_overload_witness :
  Dot_MV_dot_col_kernel 64 3 2 1 0 = Dot_Single ST_int 0 1 0
  /\ Dot_MV_dot_col (IPT := Z_traits) 64 halves_swapped scratch_five
       r_seven X_example 1 Y_example 0 0 = 8
  /\ Dot_MV_dot_col (IPT := Z_traits) 64 halves_swapped scratch_five
       r_seven X_example 1 Y_example 0 1 = 7.
Proof.
  destruct (dot_pair_overload Z_traits 64 halves_swapped scratch_five
              r_seven X_example 1 Y_example 0
              ltac:(lia) ltac:(cbn; lia)
              (or_intror (conj Z_traits_laws (halves_swapped_partitions _))))
    as (Hkernel & Hzero & Hother).
  split; [exact Hkernel|].
  split; [rewrite Hzero; reflexivity|].
  rewrite Hother by lia. reflexivity.
Defined.

(* ================================================================== *)
(** * The index-range check *)
(* ================================================================== *)

(** A 64-bit size type: [2^30] rows and [2^34] columns are values of
    it, their product [2^64] wraps around to 0, and the check holds
    although the product does not fit [int]. *)
Lemma index_range_check_wraps :
  ~ (forall numRows numCols,
        0 <= numRows < 2 ^ 64 -> 0 <= numCols < 2 ^ 64 ->
        index_range_check 64 numRows numCols = true ->
        numRows * numCols < INT_MAX).
Proof.
  intros H.
  specialize (H (2 ^ 30) (2 ^ 34) ltac:(lia) ltac:(lia) eq_refl).
  unfold INT_MAX in H. lia.
Qed.

Example product_wraps_64 :
  wrap_size 64 (2 ^ 30 * 2 ^ 34) = 0.
Proof. reflexivity. Qed.

(** The same for a 32-bit size type, at 2 rows and [2^31] columns. *)
Example product_wraps_32 :
  index_range_check 32 2 (2 ^ 31) = true /\ INT_MAX < 2 * 2 ^ 31.
Proof. split; [reflexivity | unfold INT_MAX; lia]. Qed.

(** What the wrap-around costs in a 64-bit size type: the shape passes
    the check, the [int] functor of [fill] then holds a truncated column
    count, here 0, and assigns nothing. *)
Example fill_beyond_size_type :
  Fill_MV_launch 64 (2 ^ 30) (2 ^ 34) = mkLaunch (Fill_Functor ST_int) ST_int
  /\ static_cast 64 ST_int (2 ^ 34) = 0
  /\ MV_FillFunctor 64 ST_int (ones (2 ^ 30) (2 ^ 34)) 9 0 (fun _ _ => 1) 0 0 = 1.
Proof. repeat split. Qed.

(** C7.  The check wraps around.  For every width [w] of the size type,
    2 rows and [2^(w-1)] columns are values of it and pass the first
    condition; their product [2^w] wraps around to 0, so the check holds
    although the product does not fit [int], and [fill],
    [nrm2_squared] and the single-pair [dot] all select the [int]
    functor.  With a 32-bit size type this is the shape of 2 rows and
    [2^31] columns, a column count that an [int] does not hold. *)
Theorem index_range_check_wraps_at_every_width (w X_col Y_col : Z) :
  32 <= w ->
  0 <= 2 ^ (w - 1) < 2 ^ w
  /\ wrap_size w (2 * 2 ^ (w - 1)) = 0
  /\ index_range_check w 2 (2 ^ (w - 1)) = true
  /\ INT_MAX < 2 * 2 ^ (w - 1)
  /\ Fill_MV_launch w 2 (2 ^ (w - 1)) = mkLaunch (Fill_Functor ST_int) ST_int
  /\ Nrm2_MV_launch w 2 (2 ^ (w - 1)) = mkLaunch (Nrm2_Vector ST_int) ST_int
  /\ Dot_MV_dot_col_kernel w 2 (2 ^ (w - 1)) X_col Y_col
     = Dot_Single ST_int 0 X_col Y_col.
Proof.
  intros Hw. pose proof (pow2_size_ge w Hw) as Hpow.
  assert (Hdouble : 2 * 2 ^ (w - 1) = 2 ^ w).
  { rewrite <- Z.pow_succ_r by lia. f_equal. lia. }
  assert (Hwrap : wrap_size w (2 * 2 ^ (w - 1)) = 0).
  { unfold wrap_size. rewrite Hdouble. apply Z_mod_same_full. }
  assert (Hcheck : index_range_check w 2 (2 ^ (w - 1)) = true).
  { apply (index_range_check_spec w _ _ Hw). fold (wrap_size w (2 * 2 ^ (w - 1))).
    rewrite Hwrap. unfold INT_MAX. lia. }
  repeat split; try assumption.
  - lia.
  - lia.
  - unfold INT_MAX. lia.
  - unfold Fill_MV_launch. now rewrite Hcheck.
  - unfold Nrm2_MV_launch. now rewrite Hcheck.
  - unfold Dot_MV_dot_col_kernel. now rewrite Hcheck.
Qed.

Lemma index_range_check_wraps_at_every_width_witness :
  0 <= 2147483648 < 2 ^ 32
  /\ wrap_size 32 (2 * 2147483648) = 0
  /\ index_range_check 32 2 2147483648 = true
  /\ INT_MAX < 2 * 2147483648
  /\ Fill_MV_launch 32 2 2147483648 = mkLaunch (Fill_Functor ST_int) ST_int
  /\ Nrm2_MV_launch 32 2 2147483648 = mkLaunch (Nrm2_Vector ST_int) ST_int
  /\ Dot_MV_dot_col_kernel 32 2 2147483648 0 0 = Dot_Single ST_int 0 0 0.
Proof.
  apply (index_range_check_wraps_at_every_width 32 0 0). lia.
Defined.

(** X20.  Where the check decides exactly.  When the product does not
    wrap around once the first condition has passed (a row count below
    [INT_MAX] has a product with the column count that is a value of the
    size type), the check holds exactly when [rows < INT_MAX] and
    [rows * columns < INT_MAX].  A row count of [INT_MAX] or more fails
    the check whatever the product does. *)
Theorem index_range_check_decides_exactly (w numRows numCols : Z) :
  32 <= w ->
  0 <= numRows ->
  0 <= numCols ->
  (numRows < INT_MAX -> numRows * numCols < 2 ^ w) ->
  index_range_check w numRows numCols = true
  <-> numRows < INT_MAX /\ numRows * numCols < INT_MAX.
Proof.
  intros Hw Hrows Hcols Hguard.
  destruct (Z_lt_le_dec numRows INT_MAX) as [Hsmall | Hbig].
  - apply index_range_check_exact; [exact Hw|].
    specialize (Hguard Hsmall). nia.
  - rewrite (index_range_check_spec w numRows numCols Hw). lia.
Qed.

Lemma index_range_check_decides_exactly_witness :
  (index_range_check 32 2147483648 4 = true
   <-> 2147483648 < INT_MAX /\ 2147483648 * 4 < INT_MAX)
  /\ (index_range_check 64 3 2 = true
      <-> 3 < INT_MAX /\ 3 * 2 < INT_MAX).
Proof.
  split.
  - apply index_range_check_decides_exactly;
      [ lia | lia | lia | unfold INT_MAX; lia ].
  - apply index_range_check_decides_exactly;
      [ lia | lia | lia | intros _; lia ].
Defined.

(* ================================================================== *)
(** * Entries that the reductions leave alone *)
(* ================================================================== *)

(** The conversion of a count to an index type never enlarges it. *)
Lemma to_int_le (x : Z) : 0 <= x -> to_int x <= x.
Proof.
  intros Hx. unfold to_int.
  assert (0 < 2 ^ 32) as Hpos by lia.
  pose proof (Z.mod_le (x + 2 ^ 31) (2 ^ 32) ltac:(lia) Hpos). lia.
Qed.

Lemma wrap_size_le (w x : Z) : 0 <= x -> wrap_size w x <= x.
Proof.
  intros Hx. unfold wrap_size.
  destruct (Z_lt_le_dec w 0) as [Hneg | Hnonneg].
  - rewrite Z.pow_neg_r by exact Hneg. rewrite Z.mod_0_r. lia.
  - apply Z.mod_le; [exact Hx | now apply Z.pow_pos_nonneg].
Qed.

Lemma static_cast_le (w : Z) (st : SizeType) (x : Z) :
  0 <= x -> static_cast w st x <= x.
Proof.
  intros Hx. destruct st; cbn [static_cast];
    [now apply to_int_le | now apply wrap_size_le].
Qed.

Lemma in_range_outside (trip n k : Z) :
  trip <= n -> ~ (0 <= k < n) -> in_range trip k = false.
Proof.
  intros Hle Hk. unfold in_range.
  destruct (Z.leb_spec 0 k), (Z.ltb_spec k trip); cbn [andb];
    try reflexivity; lia.
Qed.

(** X1.  Neither [dot] nor [nrm2_squared] writes an entry of the result
    whose index is not a column of [X]: such an entry holds afterwards
    what it held before, for every row count, every column count, every
    schedule and every width of the size type. *)
Theorem reductions_write_only_column_entries {xvalue_type : Type}
    (IPT : InnerProductSpaceTraits xvalue_type) (w : Z) (sched : scheduler)
    (scratch_d r_d : Z -> dot_type) (scratch_m r_m : Z -> mag_type)
    (X Y : View2 xvalue_type) (k : Z) :
  0 <= dimension_1 X ->
  ~ (0 <= k < dimension_1 X) ->
  Dot_MV_dot w sched scratch_d r_d X Y k = r_d k
  /\ Nrm2_MV_nrm2_squared w sched scratch_m r_m X k = r_m k.
Proof.
  intros Hcols Hk. split.
  - unfold Dot_MV_dot.
    destruct (Z_lt_le_dec 16 (dimension_1 X)) as [Hbig | Hsmall].
    + rewrite Dot_MV_dot_kernel_vector by exact Hbig. cbn [run_dot_kernel].
      rewrite (columnwise_parallel_reduce _ _ _ _ _
                 (MV_Dot_Right_FunctorVector_columnwise w ST_size_type X Y)).
      rewrite (in_range_outside _ (dimension_1 X) k);
        [reflexivity | now apply static_cast_le | exact Hk].
    + destruct (Z_le_dec 2 (dimension_1 X)) as [Hmid | Hlow].
      * rewrite Dot_MV_dot_kernel_unroll by lia. cbn [run_dot_kernel].
        rewrite (columnwise_parallel_reduce _ _ _ _ _
                   (MV_Dot_Right_FunctorUnroll_columnwise w (dimension_1 X)
                      ST_size_type X Y)).
        rewrite (in_range_outside _ (dimension_1 X) k);
          [reflexivity | lia | exact Hk].
      * destruct (Z.eq_dec (dimension_1 X) 1) as [Hone | Hzero].
        -- rewrite Hone, Dot_MV_dot_kernel_single. cbn [run_dot_kernel].
           rewrite V_Dot_Functor_parallel_reduce.
           destruct (Z.eqb_spec k 0); [lia | reflexivity].
        -- now rewrite Dot_MV_dot_kernel_none by lia.
  - unfold Nrm2_MV_nrm2_squared, Nrm2_MV_launch.
    destruct (index_range_check w (dimension_0 X) (dimension_1 X));
      cbn [kernel policy_index run_nrm2_kernel];
      match goal with
      | |- parallel_reduce _ _ _ (MV_Nrm2Squared_Right_FunctorVector _ ?st _) _ _ = _ =>
          rewrite (columnwise_parallel_reduce _ _ _ _ _
                     (MV_Nrm2Squared_Right_FunctorVector_columnwise w st X));
          rewrite (in_range_outside _ (dimension_1 X) k);
          [reflexivity | now apply static_cast_le | exact Hk]
      end.
Qed.

Lemma reductions_write_only_column_entries_witness :
  Dot_MV_dot (IPT := Z_traits) 64 strided scratch_five r_seven
    X_example Y_example 2 = 7
  /\ Nrm2_MV_nrm2_squared (IPT := Z_traits) 64 strided scratch_five r_seven
       X_example (-1) = 7.
Proof.
  split.
  - apply (reductions_write_only_column_entries Z_traits 64 strided
             scratch_five r_seven scratch_five r_seven X_example Y_example 2);
      cbn; lia.
  - apply (reductions_write_only_column_entries Z_traits 64 strided
             scratch_five r_seven scratch_five r_seven X_example Y_example (-1));
      cbn; lia.
Defined.

(* ================================================================== *)
(** * The scratch memory of the workers *)
(* ================================================================== *)

Lemma run_dot_kernel_scratch {xvalue_type : Type}
    {IPT : InnerProductSpaceTraits xvalue_type} (w : Z) (sched : scheduler)
    (scratch1 scratch2 r : Z -> dot_type) (numRows : Z) (kern : DotKernel)
    (X Y : View2 xvalue_type) (k : Z) :
  run_dot_kernel w sched scratch1 numRows kern r X Y k
  = run_dot_kernel w sched scratch2 numRows kern r X Y k.
Proof.
  destruct kern as [st | UNROLL st | st r_entry X_col Y_col]; cbn [run_dot_kernel].
  - now rewrite !(columnwise_parallel_reduce _ _ _ _ _
                    (MV_Dot_Right_FunctorVector_columnwise w st X Y)).
  - now rewrite !(columnwise_parallel_reduce _ _ _ _ _
                    (MV_Dot_Right_FunctorUnroll_columnwise w UNROLL st X Y)).
  - now rewrite !V_Dot_Functor_parallel_reduce.
Qed.

(** X2.  The reduction state of a worker is uninitialised memory until
    the functor's [init] runs.  No result depends on what that memory
    held: the batched [dot], the single-pair [dot] and [nrm2_squared]
    give the same result from any two scratch contents, for every shape
    and every schedule. *)
Theorem results_do_not_depend_on_scratch {xvalue_type : Type}
    (IPT : InnerProductSpaceTraits xvalue_type) (w : Z) (sched : scheduler)
    (scratch_d1 scratch_d2 r_d : Z -> dot_type)
    (scratch_m1 scratch_m2 r_m : Z -> mag_type)
    (X Y : View2 xvalue_type) (X_col Y_col k : Z) :
  Dot_MV_dot w sched scratch_d1 r_d X Y k = Dot_MV_dot w sched scratch_d2 r_d X Y k
  /\ Dot_MV_dot_col w sched scratch_d1 r_d X X_col Y Y_col k
     = Dot_MV_dot_col w sched scratch_d2 r_d X X_col Y Y_col k
  /\ Nrm2_MV_nrm2_squared w sched scratch_m1 r_m X k
     = Nrm2_MV_nrm2_squared w sched scratch_m2 r_m X k.
Proof.
  repeat split.
  - unfold Dot_MV_dot.
    destruct (Dot_MV_dot_kernel (dimension_1 X)); [|reflexivity].
    apply run_dot_kernel_scratch.
  - unfold Dot_MV_dot_col. apply run_dot_kernel_scratch.
  - unfold Nrm2_MV_nrm2_squared.
    destruct (kernel (Nrm2_MV_launch w (dimension_0 X) (dimension_1 X))) as [st].
    cbn [run_nrm2_kernel].
    now rewrite !(columnwise_parallel_reduce _ _ _ _ _
                    (MV_Nrm2Squared_Right_FunctorVector_columnwise w st X)).
Qed.

(* ================================================================== *)
(** * The two overloads of dot, and the functors behind the switch *)
(* ================================================================== *)

(** X3.  Entry [k] of the batched [dot (r, X, Y)] is what the
    single-pair overload [dot (r', X, k, Y, k)] stores in its entry 0,
    under the same schedule, whichever functor the batched overload
    selects for the column count. *)
Theorem batched_dot_column_is_pair_dot {xvalue_type : Type}
    (IPT : InnerProductSpaceTraits xvalue_type) (w : Z) (sched : scheduler)
    (scratch1 r1 scratch2 r2 : Z -> dot_type) (X Y : View2 xvalue_type) (k : Z) :
  32 <= w ->
  0 <= dimension_0 X < 2 ^ w ->
  0 <= dimension_1 X < 2 ^ w ->
  partitions sched (rows_of X) ->
  0 <= k < dimension_1 X ->
  Dot_MV_dot w sched scratch1 r1 X Y k
  = Dot_MV_dot_col w sched scratch2 r2 X k Y k 0.
Proof.
  intros Hw Hrows Hcols Hp Hk.
  rewrite (Dot_MV_dot_column w) by assumption.
  rewrite (Dot_MV_dot_col_entry w) by assumption.
  now rewrite in_range_true by exact Hk.
Qed.

Lemma batched_dot_column_is_pair_dot_witness :
  Dot_MV_dot (IPT := Z_traits) 64 strided scratch_five r_seven
    X_example Y_example 1
  = Dot_MV_dot_col (IPT := Z_traits) 64 strided r_seven scratch_five
      X_example 1 Y_example 1 0.
Proof.
  apply (batched_dot_column_is_pair_dot Z_traits 64);
    [ lia | cbn; lia | cbn; lia | apply strided_partitions | cbn; lia ].
Defined.

(** X4.  The choice that [Dot_MV::dot] makes among its functors is an
    optimisation only: for every column count that the size type holds
    (0 and 1 included) and every row count, the result is, entry by
    entry, the result of the functor with the runtime column loop under
    the same schedule. *)
Theorem dot_dispatch_is_runtime_loop {xvalue_type : Type}
    (IPT : InnerProductSpaceTraits xvalue_type) (w : Z) (sched : scheduler)
    (scratch1 scratch2 r : Z -> dot_type) (X Y : View2 xvalue_type) (k : Z) :
  0 <= dimension_1 X < 2 ^ w ->
  Dot_MV_dot w sched scratch1 r X Y k
  = run_dot_kernel w sched scratch2 (dimension_0 X) (Dot_Vector ST_size_type)
      r X Y k.
Proof.
  intros Hcols. unfold Dot_MV_dot. cbn [run_dot_kernel].
  rewrite (columnwise_parallel_reduce _ _ _ _ _
             (MV_Dot_Right_FunctorVector_columnwise w ST_size_type X Y)).
  rewrite static_cast_size_small by exact Hcols.
  destruct (Z_lt_le_dec 16 (dimension_1 X)) as [Hbig | Hsmall].
  - rewrite Dot_MV_dot_kernel_vector by exact Hbig. cbn [run_dot_kernel].
    rewrite (columnwise_parallel_reduce _ _ _ _ _
               (MV_Dot_Right_FunctorVector_columnwise w ST_size_type X Y)).
    now rewrite static_cast_size_small by exact Hcols.
  - destruct (Z_le_dec 2 (dimension_1 X)) as [Hmid | Hlow].
    + rewrite Dot_MV_dot_kernel_unroll by lia. cbn [run_dot_kernel].
      now rewrite (columnwise_parallel_reduce _ _ _ _ _
                     (MV_Dot_Right_FunctorUnroll_columnwise w (dimension_1 X)
                        ST_size_type X Y)).
    + destruct (Z.eq_dec (dimension_1 X) 1) as [Hone | Hzero].
      * rewrite Hone, Dot_MV_dot_kernel_single. cbn [run_dot_kernel].
        rewrite V_Dot_Functor_parallel_reduce. unfold in_range, subview_col.
        destruct (Z.eqb_spec k 0) as [-> | Hk]; [reflexivity|].
        destruct (Z.leb_spec 0 k), (Z.ltb_spec k 1); cbn [andb];
          try reflexivity; lia.
      * rewrite Dot_MV_dot_kernel_none by lia.
        now rewrite in_range_nonpos by lia.
Qed.

Lemma dot_dispatch_is_runtime_loop_witness :
  Dot_MV_dot (IPT := Z_traits) 64 strided scratch_five r_seven
    (ones 3 1) (ones 3 1) 0
  = run_dot_kernel (IPT := Z_traits) 64 strided r_seven 3
      (Dot_Vector ST_size_type) r_seven (ones 3 1) (ones 3 1) 0.
Proof.
  apply (dot_dispatch_is_runtime_loop Z_traits 64 strided scratch_five r_seven
           r_seven (ones 3 1) (ones 3 1) 0).
  cbn; lia.
Defined.

(* ================================================================== *)
(** * nrm2_squared within the range of int *)
(* ================================================================== *)

Lemma Z_traits_mag_laws : mag_plus_laws Z_traits.
Proof. repeat split; intros; cbn; lia. Qed.

(** X5.  For a multivector whose row count and column count are both
    below [2^31], [nrm2_squared (r, X)] stores in [r(k)], for each
    column [k], the sequential squared 2-norm of the column: the sum
    over the rows, in order, of [norm (X(i,k)) * norm (X(i,k))]; for any
    scalar arithmetic under one worker, and for every partition of the
    rows when the addition of magnitudes is associative and commutative
    with zero as identity. *)
Theorem nrm2_squared_is_sequential_sum_of_squares {xvalue_type : Type}
    (IPT : InnerProductSpaceTraits xvalue_type) (w : Z) (sched : scheduler)
    (scratch r : Z -> mag_type) (X : View2 xvalue_type) (k : Z) :
  32 <= w ->
  sched = serial \/ (mag_plus_laws IPT /\ partitions sched (rows_of X)) ->
  0 <= dimension_0 X < 2 ^ 31 ->
  0 <= dimension_1 X < 2 ^ 31 ->
  0 <= k < dimension_1 X ->
  Nrm2_MV_nrm2_squared w sched scratch r X k
  = fold_left
      (fun sum i => mag_plus sum (mag_times (IPT_norm (elem X i k))
                                            (IPT_norm (elem X i k))))
      (range 0 (dimension_0 X)) mag_zero.
Proof.
  intros Hw Hs Hrows Hcols Hk.
  now rewrite (Nrm2_MV_nrm2_squared_sequential w) by assumption.
Qed.

Lemma nrm2_squared_is_sequential_sum_of_squares_witness :
  Nrm2_MV_nrm2_squared (IPT := Z_traits) 64 halves_swapped scratch_five r_seven
    X_example 1 = 56.
Proof.
  etransitivity.
  - apply (nrm2_squared_is_sequential_sum_of_squares Z_traits 64);
      [ lia
      | right; split; [exact Z_traits_mag_laws | apply halves_swapped_partitions]
      | cbn; lia | cbn; lia | cbn; lia ].
  - reflexivity.
Defined.

(** X6.  For a multivector whose row count and column count are both
    below [2^31], what [nrm2_squared (r, X)] stores for column [k] is
    the real part of what [dot (r', X, X)] stores for it, under the same
    schedule: for every scalar type whose real part maps zero to zero,
    sums to sums and [dot (x, x)] to [norm (x) * norm (x)]. *)
Theorem nrm2_squared_is_real_part_of_dot {xvalue_type : Type}
    (IPT : InnerProductSpaceTraits xvalue_type) (w : Z)
    (re : dot_type -> mag_type) (sched : scheduler)
    (scratch_m r_m : Z -> mag_type) (scratch_d r_d : Z -> dot_type)
    (X : View2 xvalue_type) (k : Z) :
  32 <= w ->
  real_part_laws IPT re ->
  partitions sched (rows_of X) ->
  0 <= dimension_0 X < 2 ^ 31 ->
  0 <= dimension_1 X < 2 ^ 31 ->
  0 <= k < dimension_1 X ->
  Nrm2_MV_nrm2_squared w sched scratch_m r_m X k
  = re (Dot_MV_dot w sched scratch_d r_d X X k).
Proof.
  intros Hw Hre Hp Hrows Hcols Hk.
  now apply Nrm2_MV_nrm2_squared_real_part_dot.
Qed.

Lemma nrm2_squared_is_real_part_of_dot_witness :
  Nrm2_MV_nrm2_squared (IPT := Z_traits) 64 strided scratch_five r_seven
    X_example 0
  = Dot_MV_dot (IPT := Z_traits) 64 strided r_seven scratch_five
      X_example X_example 0.
Proof.
  apply (nrm2_squared_is_real_part_of_dot Z_traits 64 (fun a : Z => a));
    [ lia | exact Z_traits_real_part | apply strided_partitions
    | cbn; lia | cbn; lia | cbn; lia ].
Defined.

(* ================================================================== *)
(** * The index type of a functor *)
(* ================================================================== *)

(** X7.  The index type is a matter of speed only.  When the row count
    and the column count are below [2^31], the norm functor instantiated
    with [int] and with [size_type] leave the same result under the
    [int] policy of [nrm2_squared], and so do the two instantiations of
    the single-vector dot functor that the single-pair [dot] chooses
    between. *)
Theorem reduction_index_type_is_immaterial {xvalue_type : Type}
    (IPT : InnerProductSpaceTraits xvalue_type) (w : Z) (sched : scheduler)
    (scratch_m r_m : Z -> mag_type) (scratch_d r_d : Z -> dot_type)
    (X Y : View2 xvalue_type) (X_col Y_col k : Z) :
  32 <= w ->
  0 <= dimension_0 X < 2 ^ 31 ->
  0 <= dimension_1 X < 2 ^ 31 ->
  partitions sched (rows_of X) ->
  run_nrm2_kernel w sched scratch_m (RangePolicy w ST_int 0 (dimension_0 X))
    (Nrm2_Vector ST_int) r_m X k
  = run_nrm2_kernel w sched scratch_m (RangePolicy w ST_int 0 (dimension_0 X))
      (Nrm2_Vector ST_size_type) r_m X k
  /\ run_dot_kernel w sched scratch_d (dimension_0 X)
       (Dot_Single ST_int 0 X_col Y_col) r_d X Y k
     = run_dot_kernel w sched scratch_d (dimension_0 X)
         (Dot_Single ST_size_type 0 X_col Y_col) r_d X Y k.
Proof.
  intros Hw Hrows Hcols Hp. pose proof (pow2_size_ge w Hw) as Hpow.
  unfold rows_of in Hp. split.
  - cbn [run_nrm2_kernel]. rewrite RangePolicy_int by exact Hrows.
    rewrite (columnwise_parallel_reduce _ _ _ _ _
               (MV_Nrm2Squared_Right_FunctorVector_columnwise w ST_int X)).
    rewrite (columnwise_parallel_reduce _ _ _ _ _
               (MV_Nrm2Squared_Right_FunctorVector_columnwise w ST_size_type X)).
    rewrite (static_cast_index w ST_int (dimension_1 X + 1)) by (intros; lia).
    rewrite (static_cast_index w ST_size_type (dimension_1 X + 1)) by (intros; lia).
    destruct (in_range (dimension_1 X) k); [|reflexivity].
    etransitivity.
    + apply (tree_sum_static_cast w mag_zero mag_plus (square_norm X k) ST_int
               sched (dimension_0 X)); [exact Hp | intros; lia | lia].
    + symmetry.
      apply (tree_sum_static_cast w mag_zero mag_plus (square_norm X k)
               ST_size_type sched (dimension_0 X)); [exact Hp | intros; lia | lia].
  - cbn [run_dot_kernel]. rewrite count_range_exact by lia.
    rewrite !V_Dot_Functor_parallel_reduce.
    destruct (k =? 0); [|reflexivity].
    set (f := fun i => IPT_dot (subview_col X X_col i) (subview_col Y Y_col i)).
    etransitivity.
    + apply (tree_sum_static_cast w dot_zero dot_plus f ST_int sched
               (dimension_0 X)); [exact Hp | intros; lia | lia].
    + symmetry.
      apply (tree_sum_static_cast w dot_zero dot_plus f ST_size_type sched
               (dimension_0 X)); [exact Hp | intros; lia | lia].
Qed.

Lemma reduction_index_type_is_immaterial_witness :
  run_nrm2_kernel (IPT := Z_traits) 64 strided scratch_five
    (RangePolicy 64 ST_int 0 (dimension_0 X_example))
    (Nrm2_Vector ST_int) r_seven X_example 0
  = run_nrm2_kernel (IPT := Z_traits) 64 strided scratch_five
      (RangePolicy 64 ST_int 0 (dimension_0 X_example))
      (Nrm2_Vector ST_size_type) r_seven X_example 0
  /\ run_dot_kernel (IPT := Z_traits) 64 strided scratch_five
       (dimension_0 X_example) (Dot_Single ST_int 0 1 0) r_seven
       X_example Y_example 0
     = run_dot_kernel (IPT := Z_traits) 64 strided scratch_five
         (dimension_0 X_example) (Dot_Single ST_size_type 0 1 0) r_seven
         X_example Y_example 0.
Proof.
  apply (reduction_index_type_is_immaterial Z_traits 64);
    [ lia | cbn; lia | cbn; lia | apply strided_partitions ].
Defined.

(* ================================================================== *)
(** * What fill leaves alone *)
(* ================================================================== *)

(** An index below a converted count is not changed by the conversion. *)
Lemma static_cast_below (w : Z) (st : SizeType) (n i : Z) :
  0 <= i < static_cast w st n -> static_cast w st i = i.
Proof.
  destruct st; cbn [static_cast]; intros Hi.
  - apply to_int_small. unfold to_int in Hi.
    pose proof (Z.mod_pos_bound (n + 2 ^ 31) (2 ^ 32) ltac:(lia)). lia.
  - unfold wrap_size in *.
    destruct (Z_lt_le_dec w 0) as [Hneg | Hnonneg].
    + rewrite Z.pow_neg_r by exact Hneg. apply Z.mod_0_r.
    + apply Z.mod_small.
      pose proof (Z.mod_pos_bound n (2 ^ w) ltac:(now apply Z.pow_pos_nonneg)).
      lia.
Qed.

Lemma fold_left_frame2 {A : Type} (op : Z -> (Z -> Z -> A) -> Z -> Z -> A)
    (rows : list Z) (m : Z -> Z -> A) (i j : Z) :
  (forall i0 m0, In i0 rows -> op i0 m0 i j = m0 i j) ->
  fold_left (fun m i0 => op i0 m) rows m i j = m i j.
Proof.
  revert m. induction rows as [|i0 rows IH]; intros m Hop; cbn [fold_left].
  - reflexivity.
  - rewrite IH by (intros; apply Hop; now right).
    apply Hop. now left.
Qed.

(** The rows of a policy for the count [work_end] are indices below it
    that its index type holds. *)
Lemma In_RangePolicy (w : Z) (st : SizeType) (work_end i : Z) :
  0 <= work_end ->
  In i (policy_rows (RangePolicy w st 0 work_end)) ->
  0 <= i < work_end /\ static_cast w st i = i.
Proof.
  intros Hn. unfold RangePolicy, policy_rows. rewrite static_cast_zero.
  destruct (Z.ltb_spec 0 (static_cast w st work_end)); cbn [fst snd].
  - rewrite In_range. intros Hi.
    pose proof (static_cast_le w st work_end Hn).
    split; [lia | now apply (static_cast_below w st work_end)].
  - rewrite range_empty by lia. intros [].
Qed.

Lemma MV_FillFunctor_frame {A : Type} (w : Z) (st : SizeType) (sched : scheduler)
    (X : View2 A) (val : A) (work_end : Z) (m : Z -> Z -> A) (i j : Z) :
  partitions sched (policy_rows (RangePolicy w st 0 work_end)) ->
  0 <= work_end -> 0 <= dimension_1 X ->
  ~ (0 <= i < work_end /\ 0 <= j < dimension_1 X) ->
  parallel_for sched (RangePolicy w st 0 work_end) (MV_FillFunctor w st X val) m i j
  = m i j.
Proof.
  intros Hp Hn Hcols Hout. unfold parallel_for.
  apply fold_left_frame2. intros i0 m0 Hi0.
  apply (Permutation_in i0 Hp) in Hi0.
  apply (In_RangePolicy w st work_end i0 Hn) in Hi0 as [Hrow Hcast].
  unfold MV_FillFunctor. cbv zeta. rewrite Hcast, for_loop_upd2.
  destruct (Z.eqb_spec i i0) as [-> | Hne]; [|reflexivity].
  rewrite (in_range_outside _ (dimension_1 X) j);
    [reflexivity | now apply static_cast_le | lia].
Qed.

(** X8.  [fill] never writes outside the shape of [X]: an element whose
    row or column index is out of range holds afterwards what it held
    before.  This holds for every shape, in either branch, also when the
    product of the check wraps around, and for every width of the size
    type. *)
Theorem fill_never_writes_outside_the_shape {A : Type} (w : Z)
    (sched : scheduler) (X : View2 A) (val : A) (i j : Z) :
  (forall rows, partitions sched rows) ->
  0 <= dimension_0 X ->
  0 <= dimension_1 X ->
  ~ (0 <= i < dimension_0 X /\ 0 <= j < dimension_1 X) ->
  elem (Fill_MV_fill w sched X val) i j = elem X i j.
Proof.
  intros Hp Hrows Hcols Hout. unfold Fill_MV_fill, Fill_MV_launch. cbn [elem].
  destruct (index_range_check w (dimension_0 X) (dimension_1 X));
    cbn [kernel policy_index run_fill_kernel];
    now apply MV_FillFunctor_frame.
Qed.

Lemma fill_never_writes_outside_the_shape_witness :
  elem (Fill_MV_fill 64 strided X_example 9) 3 0 = 0
  /\ elem (Fill_MV_fill 64 strided X_example 9) 1 2 = 0.
Proof.
  split.
  - apply (fill_never_writes_outside_the_shape 64 strided X_example 9 3 0);
      [ intros; apply strided_partitions | cbn; lia | cbn; lia | cbn; lia ].
  - apply (fill_never_writes_outside_the_shape 64 strided X_example 9 1 2);
      [ intros; apply strided_partitions | cbn; lia | cbn; lia | cbn; lia ].
Defined.

(* ================================================================== *)
(** * fill, composed *)
(* ================================================================== *)

(** The elements that the fill functor assigns under a schedule: the
    rows handed out, converted to the index type, by the columns below
    the converted column count. *)
Lemma fold_left_fill_rows_cast {A : Type} (c : Z -> Z) (v : A) (numCols : Z)
    (rows : list Z) (m : Z -> Z -> A) (i' j' : Z) :
  fold_left (fun m i => for_loop numCols (fun j m => upd2 m (c i) j v) m) rows m i' j'
  = if existsb (fun i => i' =? c i) rows && in_range numCols j' then v else m i' j'.
Proof.
  revert m. induction rows as [|i rows IH]; intros m; cbn [fold_left existsb].
  - reflexivity.
  - rewrite IH, for_loop_upd2.
    destruct (i' =? c i), (existsb (fun i => i' =? c i) rows),
      (in_range numCols j'); reflexivity.
Qed.

Lemma MV_FillFunctor_assigned {A : Type} (w : Z) (st : SizeType)
    (sched : scheduler) (X : View2 A) (val : A) (policy : Z * Z)
    (m : Z -> Z -> A) (i j : Z) :
  parallel_for sched policy (MV_FillFunctor w st X val) m i j
  = if existsb (fun i0 => i =? static_cast w st i0)
         (assigned (sched (policy_rows policy)))
       && in_range (static_cast w st (dimension_1 X)) j
    then val else m i j.
Proof.
  unfold parallel_for, MV_FillFunctor.
  exact (fold_left_fill_rows_cast (static_cast w st) val _ _ m i j).
Qed.

Lemma existsb_Permutation {B : Type} (f : B -> bool) (l l' : list B) :
  Permutation l l' -> existsb f l = existsb f l'.
Proof.
  intros Hp. induction Hp as [|x l l' _ IH|x y l|l l' l'' _ IH1 _ IH2];
    cbn [existsb].
  - reflexivity.
  - now rewrite IH.
  - destruct (f x), (f y); reflexivity.
  - now rewrite IH1.
Qed.

(** X9.  The last [fill] wins: filling with [v1] and then with [v2]
    leaves every element, inside and outside the shape, as one [fill]
    with [v2] does, for every shape and every width of the size type
    (also where the product of the check wraps around) and however the
    two calls hand out the rows of the policy. *)
Theorem fill_overwrites_fill {A : Type} (w : Z) (s1 s2 : scheduler)
    (X : View2 A) (v1 v2 : A) (i j : Z) :
  (forall rows, partitions s1 rows) ->
  (forall rows, partitions s2 rows) ->
  elem (Fill_MV_fill w s2 (Fill_MV_fill w s1 X v1) v2) i j
  = elem (Fill_MV_fill w s2 X v2) i j.
Proof.
  intros Hp1 Hp2. unfold Fill_MV_fill. cbn [elem dimension_0 dimension_1].
  set (l := Fill_MV_launch w (dimension_0 X) (dimension_1 X)).
  set (policy := RangePolicy w (policy_index l) 0 (dimension_0 X)).
  destruct (kernel l) as [st]. cbn [run_fill_kernel].
  rewrite !MV_FillFunctor_assigned. cbn [elem dimension_1].
  rewrite MV_FillFunctor_assigned.
  rewrite (existsb_Permutation _ _ _ (Hp1 (policy_rows policy))).
  rewrite (existsb_Permutation _ _ _ (Hp2 (policy_rows policy))).
  destruct (existsb (fun i0 => i =? static_cast w st i0) (policy_rows policy)
            && in_range (static_cast w st (dimension_1 X)) j);
    reflexivity.
Qed.

Lemma fill_overwrites_fill_witness :
  elem (Fill_MV_fill 64 strided (Fill_MV_fill 64 halves_swapped X_example 4) 9) 2 1
  = elem (Fill_MV_fill 64 strided X_example 9) 2 1.
Proof.
  apply fill_overwrites_fill;
    [ intros; apply halves_swapped_partitions
    | intros; apply strided_partitions ].
Defined.

(** X10.  [dot] after [fill], for multivectors [X] and [Y] of one shape
    whose dimensions the size type holds and on which the check does not
    select [int] for a column count of [2^31] or more (the condition
    under which [fill] assigns every element): when [X] has been filled
    with [u] and [Y] with [v], [dot (r, X, Y)] stores for every column
    the sum of as many copies of [dot (u, v)] as there are rows. *)
Theorem dot_of_filled_multivectors {xvalue_type : Type}
    (IPT : InnerProductSpaceTraits xvalue_type) (w : Z) (sf sched : scheduler)
    (scratch r : Z -> dot_type) (X Y : View2 xvalue_type) (u v : xvalue_type)
    (k : Z) :
  32 <= w ->
  sched = serial \/ (dot_plus_laws IPT /\ partitions sched (rows_of X)) ->
  partitions sf (rows_of X) ->
  0 <= dimension_0 X < 2 ^ w ->
  0 <= dimension_1 X < 2 ^ w ->
  (index_range_check w (dimension_0 X) (dimension_1 X) = true ->
   dimension_1 X < 2 ^ 31) ->
  dimension_0 Y = dimension_0 X ->
  dimension_1 Y = dimension_1 X ->
  0 <= k < dimension_1 X ->
  Dot_MV_dot w sched scratch r (Fill_MV_fill w sf X u) (Fill_MV_fill w sf Y v) k
  = fold_left (fun sum _ => dot_plus sum (IPT_dot u v))
      (range 0 (dimension_0 X)) dot_zero.
Proof.
  intros Hw Hs Hpf Hrows Hcols Hint HrowsY HcolsY Hk.
  assert (Hp : partitions sched (rows_of X)).
  { destruct Hs as [-> | [_ Hp]]; [apply serial_partitions | exact Hp]. }
  pose proof (Dot_MV_dot_column w sched scratch r (Fill_MV_fill w sf X u)
                (Fill_MV_fill w sf Y v) k) as H.
  change (dimension_0 (Fill_MV_fill w sf X u)) with (dimension_0 X) in H.
  change (dimension_1 (Fill_MV_fill w sf X u)) with (dimension_1 X) in H.
  change (rows_of (Fill_MV_fill w sf X u)) with (rows_of X) in H.
  rewrite H by assumption. clear H.
  rewrite in_range_true by exact Hk.
  rewrite (tree_sum_ext dot_zero dot_plus _ (fun _ => IPT_dot u v)).
  - destruct Hs as [-> | [(Hassoc & Hcomm & Hzero) _]].
    + reflexivity.
    + now apply (tree_sum_partition dot_zero dot_plus Hassoc Hcomm Hzero).
  - intros i Hi. apply (partitions_range sched 0 (dimension_0 X) i Hp) in Hi.
    pose proof (Fill_MV_fill_elem w sf Y v i k Hw) as HY.
    unfold rows_of in HY. rewrite HrowsY, HcolsY in HY.
    rewrite (Fill_MV_fill_elem w sf X u), HY by assumption.
    now rewrite !in_range_true by lia.
Qed.

Lemma dot_of_filled_multivectors_witness :
  Dot_MV_dot (IPT := Z_traits) 64 strided scratch_five r_seven
    (Fill_MV_fill 64 halves_swapped X_example 2)
    (Fill_MV_fill 64 halves_swapped Y_example 3) 1 = 18.
Proof.
  etransitivity.
  - apply (dot_of_filled_multivectors Z_traits 64);
      [ lia
      | right; split; [exact Z_traits_laws | apply strided_partitions]
      | apply halves_swapped_partitions
      | cbn; lia | cbn; lia | intros _; cbn; lia
      | reflexivity | reflexivity | cbn; lia ].
  - reflexivity.
Defined.

(** X11.  For [fill] too the index type is a matter of speed only: when
    the row count and the column count are below [2^31], the [int]
    functor under the [int] policy and the [size_type] functor under the
    [size_type] policy leave the same elements. *)
Theorem fill_index_type_is_immaterial {A : Type} (w : Z) (sched : scheduler)
    (X : View2 A) (val : A) (i j : Z) :
  32 <= w ->
  0 <= dimension_0 X < 2 ^ 31 ->
  0 <= dimension_1 X < 2 ^ 31 ->
  partitions sched (rows_of X) ->
  run_fill_kernel w sched (RangePolicy w ST_int 0 (dimension_0 X))
    (Fill_Functor ST_int) X val i j
  = run_fill_kernel w sched (RangePolicy w ST_size_type 0 (dimension_0 X))
      (Fill_Functor ST_size_type) X val i j.
Proof.
  intros Hw Hrows Hcols Hp. pose proof (pow2_size_ge w Hw) as Hpow.
  cbn [run_fill_kernel].
  rewrite RangePolicy_int by exact Hrows.
  rewrite RangePolicy_size_type by lia.
  etransitivity.
  - apply MV_FillFunctor_rows;
      [ exact Hp
      | apply static_cast_index; [intros _|]; lia
      | apply (static_cast_index w ST_int (dimension_1 X + 1)); [intros _| |]; lia ].
  - symmetry.
    apply MV_FillFunctor_rows;
      [ exact Hp
      | apply static_cast_index; [discriminate | lia]
      | apply static_cast_size_small; lia ].
Qed.

Lemma fill_index_type_is_immaterial_witness :
  run_fill_kernel 64 strided (RangePolicy 64 ST_int 0 (dimension_0 X_example))
    (Fill_Functor ST_int) X_example 9 2 1
  = run_fill_kernel 64 strided
      (RangePolicy 64 ST_size_type 0 (dimension_0 X_example))
      (Fill_Functor ST_size_type) X_example 9 2 1.
Proof.
  apply fill_index_type_is_immaterial;
    [ lia | cbn; lia | cbn; lia | apply strided_partitions ].
Defined.

(* ================================================================== *)
(** * The single-vector functors *)
(* ================================================================== *)

(** A policy whose index type holds the count has the rows [0, n). *)
Lemma RangePolicy_index (w : Z) (st : SizeType) (n : Z) :
  0 <= n < 2 ^ w -> (st = ST_int -> n < 2 ^ 31) ->
  RangePolicy w st 0 n = (0, n).
Proof.
  intros Hn Hint. destruct st.
  - apply RangePolicy_int. specialize (Hint eq_refl). lia.
  - now apply RangePolicy_size_type.
Qed.

Lemma fold_left_upd_rows {A : Type} (v : A) (rows : list Z) (x : Z -> A) (i' : Z) :
  fold_left (fun x i => upd x i v) rows x i'
  = if existsb (Z.eqb i') rows then v else x i'.
Proof.
  revert x. induction rows as [|i rows IH]; intros x; cbn [fold_left existsb].
  - reflexivity.
  - rewrite IH. unfold upd.
    destruct (i' =? i), (existsb (Z.eqb i') rows); reflexivity.
Qed.

(** X12.  The single-vector fill functor, run over a policy of [n] rows
    whose index type holds [n], assigns [val] to the entries [0] to
    [n - 1] of the vector and to no other, however the rows are handed
    out. *)
Theorem V_FillFunctor_fills_the_range {A : Type} (w : Z) (st : SizeType)
    (sched : scheduler) (n : Z) (x : Z -> A) (val : A) (i : Z) :
  0 <= n < 2 ^ w ->
  (st = ST_int -> n < 2 ^ 31) ->
  partitions sched (range 0 n) ->
  parallel_for sched (RangePolicy w st 0 n) (V_FillFunctor w st val) x i
  = if in_range n i then val else x i.
Proof.
  intros Hn Hint Hp. rewrite RangePolicy_index by assumption.
  unfold parallel_for, policy_rows, V_FillFunctor. cbn [fst snd].
  rewrite (fold_left_ext_in _ (fun x i => upd x i val)).
  - rewrite fold_left_upd_rows, existsb_assigned by exact Hp. reflexivity.
  - intros a k Hk. apply (partitions_range sched 0 n k Hp) in Hk.
    cbv zeta. rewrite (static_cast_index w st n); [reflexivity | | lia | exact Hk].
    intros Hst. specialize (Hint Hst). lia.
Qed.

Lemma V_FillFunctor_fills_the_range_witness :
  parallel_for strided (RangePolicy 64 ST_int 0 3) (V_FillFunctor 64 ST_int 9)
    r_seven 2 = 9
  /\ parallel_for strided (RangePolicy 64 ST_int 0 3) (V_FillFunctor 64 ST_int 9)
       r_seven 3 = 7.
Proof.
  split.
  - apply (V_FillFunctor_fills_the_range 64 ST_int strided 3 r_seven 9 2);
      [ lia | intros _; lia | apply strided_partitions ].
  - apply (V_FillFunctor_fills_the_range 64 ST_int strided 3 r_seven 9 3);
      [ lia | intros _; lia | apply strided_partitions ].
Defined.

Lemma V_Nrm2Squared_Functor_partial_reduce {xvalue_type : Type}
    {IPT : InnerProductSpaceTraits xvalue_type} (w : Z) (st : SizeType)
    (m_r : Z) (m_x : Z -> xvalue_type) (scratch : mag_type) (s : schedule) :
  partial_reduce (V_Nrm2Squared_Functor w st m_r m_x) scratch s
  = tree_sum mag_zero mag_plus
      (fun i => mag_times (IPT_norm (m_x (static_cast w st i)))
                          (IPT_norm (m_x (static_cast w st i)))) s.
Proof.
  induction s as [rows|l IHl r IHr]; cbn [partial_reduce tree_sum].
  - reflexivity.
  - rewrite IHl, IHr. reflexivity.
Qed.

(** X13.  The single-vector squared-norm functor, run over a policy of
    [n] rows whose index type holds [n], stores in its 0-D result the
    sum over the entries [0] to [n - 1], in order, of
    [norm (x(i)) * norm (x(i))], and writes nothing else: for any scalar
    arithmetic under one worker, and for every partition of the rows
    when the addition of magnitudes is associative and commutative with
    zero as identity. *)
Theorem V_Nrm2Squared_Functor_sum_of_squares {xvalue_type : Type}
    (IPT : InnerProductSpaceTraits xvalue_type) (w : Z) (st : SizeType)
    (sched : scheduler) (scratch : mag_type) (n m_r : Z)
    (m_x : Z -> xvalue_type) (r : Z -> mag_type) :
  0 <= n < 2 ^ w ->
  (st = ST_int -> n < 2 ^ 31) ->
  sched = serial \/ (mag_plus_laws IPT /\ partitions sched (range 0 n)) ->
  parallel_reduce sched scratch (RangePolicy w st 0 n)
    (V_Nrm2Squared_Functor w st m_r m_x) r
  = upd r m_r
      (fold_left
         (fun sum i => mag_plus sum (mag_times (IPT_norm (m_x i)) (IPT_norm (m_x i))))
         (range 0 n) mag_zero).
Proof.
  intros Hn Hint Hs.
  assert (Hp : partitions sched (range 0 n)).
  { destruct Hs as [-> | [_ Hp]]; [apply serial_partitions | exact Hp]. }
  rewrite RangePolicy_index by assumption.
  unfold parallel_reduce, policy_rows. cbn [fst snd final V_Nrm2Squared_Functor].
  f_equal. rewrite V_Nrm2Squared_Functor_partial_reduce.
  rewrite (tree_sum_static_cast w mag_zero mag_plus
             (fun i => mag_times (IPT_norm (m_x i)) (IPT_norm (m_x i)))
             st sched n);
    [ | exact Hp | intros Hst; specialize (Hint Hst); lia | lia ].
  destruct Hs as [-> | [(Hassoc & Hcomm & Hzero) _]].
  - reflexivity.
  - now apply (tree_sum_partition mag_zero mag_plus Hassoc Hcomm Hzero).
Qed.

Lemma V_Nrm2Squared_Functor_sum_of_squares_witness :
  parallel_reduce strided 5 (RangePolicy 64 ST_int 0 3)
    (V_Nrm2Squared_Functor (IPT := Z_traits) 64 ST_int 0 (subview_col X_example 1))
    r_seven
  = upd r_seven 0 56.
Proof.
  apply (V_Nrm2Squared_Functor_sum_of_squares Z_traits 64 ST_int strided 5 3 0
           (subview_col X_example 1) r_seven);
    [ lia | intros _; lia
    | right; split; [exact Z_traits_mag_laws | apply strided_partitions] ].
Defined.

(** X14.  The multivector functors are, column by column, the
    single-vector functors: for a column [j] below the functor's column
    count, entry [j] of the result of the dot functor with the runtime
    column loop is what the single-vector dot functor on column [j] of
    [X] and [Y] stores in [r(j)], and likewise for the squared-norm
    functors; for every policy, index type and schedule. *)
Theorem multivector_functor_column_is_single_vector_functor {xvalue_type : Type}
    (IPT : InnerProductSpaceTraits xvalue_type) (w : Z) (st : SizeType)
    (sched : scheduler) (policy : Z * Z)
    (scratch_d r_d : Z -> dot_type) (scratch_d0 : dot_type)
    (scratch_m r_m : Z -> mag_type) (scratch_m0 : mag_type)
    (X Y : View2 xvalue_type) (j : Z) :
  0 <= j < static_cast w st (dimension_1 X) ->
  parallel_reduce sched scratch_d policy (MV_Dot_Right_FunctorVector w st X Y) r_d j
  = parallel_reduce sched scratch_d0 policy
      (V_Dot_Functor w st j (subview_col X j) (subview_col Y j)) r_d j
  /\ parallel_reduce sched scratch_m policy
       (MV_Nrm2Squared_Right_FunctorVector w st X) r_m j
     = parallel_reduce sched scratch_m0 policy
         (V_Nrm2Squared_Functor w st j (subview_col X j)) r_m j.
Proof.
  intros Hj. split.
  - rewrite (columnwise_parallel_reduce _ _ _ _ _
               (MV_Dot_Right_FunctorVector_columnwise w st X Y)).
    rewrite V_Dot_Functor_parallel_reduce.
    now rewrite in_range_true, Z.eqb_refl by exact Hj.
  - rewrite (columnwise_parallel_reduce _ _ _ _ _
               (MV_Nrm2Squared_Right_FunctorVector_columnwise w st X)).
    rewrite in_range_true by exact Hj.
    unfold parallel_reduce. cbn [final V_Nrm2Squared_Functor].
    unfold upd. rewrite Z.eqb_refl, V_Nrm2Squared_Functor_partial_reduce.
    reflexivity.
Qed.

Lemma multivector_functor_column_is_single_vector_functor_witness :
  parallel_reduce strided scratch_five (0, 3)
    (MV_Dot_Right_FunctorVector (IPT := Z_traits) 64 ST_int X_example Y_example)
    r_seven 1
  = parallel_reduce strided 5 (0, 3)
      (V_Dot_Functor (IPT := Z_traits) 64 ST_int 1
         (subview_col X_example 1) (subview_col Y_example 1)) r_seven 1
  /\ parallel_reduce strided scratch_five (0, 3)
       (MV_Nrm2Squared_Right_FunctorVector (IPT := Z_traits) 64 ST_int X_example)
       r_seven 1
     = parallel_reduce strided 5 (0, 3)
         (V_Nrm2Squared_Functor (IPT := Z_traits) 64 ST_int 1
            (subview_col X_example 1)) r_seven 1.
Proof.
  apply (multivector_functor_column_is_single_vector_functor Z_traits 64 ST_int
           strided (0, 3) scratch_five r_seven 5 scratch_five r_seven 5
           X_example Y_example 1).
  cbn. lia.
Defined.

(** In binary64 the square of [fabs (x)] is the square of [x]. *)
Lemma mul_abs_abs (x : float) :
  PrimFloat.mul (PrimFloat.abs x) (PrimFloat.abs x) = PrimFloat.mul x x.
Proof.
  apply FloatAxioms.Prim2SF_inj.
  rewrite !FloatAxioms.mul_spec, FloatAxioms.abs_spec.
  destruct (FloatOps.Prim2SF x) as [s|s| |s m e]; cbn; try reflexivity;
    destruct s; reflexivity.
Qed.

Lemma V_Nrm2Squared_Functor_double_partial_reduce (w : Z) (m_r : Z)
    (m_x : Z -> float) (scratch1 scratch2 : float) (s : schedule) :
  partial_reduce (V_Nrm2Squared_Functor_double w m_r m_x) scratch1 s
  = partial_reduce (V_Nrm2Squared_Functor (IPT := double_traits) w ST_int m_r m_x)
      scratch2 s.
Proof.
  induction s as [rows|l IHl r IHr]; cbn [partial_reduce].
  - cbn [init contribute V_Nrm2Squared_Functor V_Nrm2Squared_Functor_double].
    apply fold_left_ext_in. intros a i _. cbv zeta.
    cbn [mag_plus mag_times IPT_norm double_traits].
    now rewrite mul_abs_abs.
  - rewrite IHl, IHr. reflexivity.
Qed.

(** X15.  The partial specialization of the single-vector squared-norm
    functor for [double] and [int], which squares the element without
    taking [IPT::norm] and starts from the literal [0.0], leaves the
    same result as the primary template instantiated for [double], where
    [norm (x)] is [fabs (x)]: for every vector, policy and schedule, in
    binary64 arithmetic. *)
Theorem V_Nrm2Squared_Functor_double_is_primary_template (w : Z)
    (sched : scheduler) (scratch1 scratch2 : float) (policy : Z * Z) (m_r : Z)
    (m_x : Z -> float) (r : Z -> float) :
  parallel_reduce sched scratch1 policy (V_Nrm2Squared_Functor_double w m_r m_x) r
  = parallel_reduce sched scratch2 policy
      (V_Nrm2Squared_Functor (IPT := double_traits) w ST_int m_r m_x) r.
Proof.
  unfold parallel_reduce.
  rewrite (V_Nrm2Squared_Functor_double_partial_reduce w m_r m_x scratch1 scratch2).
  reflexivity.
Qed.

(* ================================================================== *)
(** * What the index-range check guarantees *)
(* ================================================================== *)

(** X16.  For a multivector with at least one row whose product of
    rows and columns is a value of the size type (no wrap-around), a
    check that selects [int] guarantees that an [int] holds everything
    the functors compute with: the row count and the column count that
    the functors store, each row index, each column index, and the
    offset of every element in the row-major and in the column-major
    layout.  (Without rows the check says nothing about the column
    count.) *)
Theorem index_range_check_bounds_every_offset (w numRows numCols : Z) :
  32 <= w ->
  1 <= numRows ->
  0 <= numCols ->
  numRows * numCols < 2 ^ w ->
  index_range_check w numRows numCols = true ->
  static_cast w ST_int numRows = numRows
  /\ static_cast w ST_int numCols = numCols
  /\ (forall i, 0 <= i < numRows -> static_cast w ST_int i = i)
  /\ (forall j, 0 <= j < numCols -> static_cast w ST_int j = j)
  /\ (forall i j, 0 <= i < numRows -> 0 <= j < numCols ->
        static_cast w ST_int (i * numCols + j) = i * numCols + j
        /\ static_cast w ST_int (i + j * numRows) = i + j * numRows).
Proof.
  intros Hw Hrows Hcols Hcount Hcheck.
  apply (index_range_check_exact w _ _ Hw) in Hcheck; [|nia].
  unfold INT_MAX in Hcheck. cbn [static_cast].
  assert (Hc : numCols <= numRows * numCols) by nia.
  repeat split; intros; apply to_int_small; nia.
Qed.

Lemma index_range_check_bounds_every_offset_witness :
  static_cast 64 ST_int 3 = 3
  /\ static_cast 64 ST_int 2 = 2
  /\ (forall i, 0 <= i < 3 -> static_cast 64 ST_int i = i)
  /\ (forall j, 0 <= j < 2 -> static_cast 64 ST_int j = j)
  /\ (forall i j, 0 <= i < 3 -> 0 <= j < 2 ->
        static_cast 64 ST_int (i * 2 + j) = i * 2 + j
        /\ static_cast 64 ST_int (i + j * 3) = i + j * 3).
Proof.
  apply (index_range_check_bounds_every_offset 64 3 2);
    [ lia | lia | lia | lia | reflexivity ].
Defined.

(* ================================================================== *)
(** * Multivectors without rows *)
(* ================================================================== *)

(** X17.  For a multivector without rows whose column count is below
    [2^31], [dot] and [nrm2_squared] store zero for every column, and
    [fill] leaves the multivector as it was. *)
Theorem no_rows_zero_results {xvalue_type : Type}
    (IPT : InnerProductSpaceTraits xvalue_type) (w : Z) (sched : scheduler)
    (scratch_d r_d : Z -> dot_type) (scratch_m r_m : Z -> mag_type)
    (X Y : View2 xvalue_type) (val : xvalue_type) (k : Z) :
  32 <= w ->
  dot_plus dot_zero dot_zero = dot_zero ->
  mag_plus mag_zero mag_zero = mag_zero ->
  partitions sched [] ->
  dimension_0 X = 0 ->
  0 <= dimension_1 X < 2 ^ 31 ->
  0 <= k < dimension_1 X ->
  Dot_MV_dot w sched scratch_d r_d X Y k = dot_zero
  /\ Nrm2_MV_nrm2_squared w sched scratch_m r_m X k = mag_zero
  /\ Fill_MV_fill w sched X val = X.
Proof.
  intros Hw Hd Hm Hp Hrows Hcols Hk. pose proof (pow2_size_ge w Hw) as Hpow.
  repeat split.
  - apply Dot_MV_dot_no_rows; try assumption; lia.
  - now apply Nrm2_MV_nrm2_squared_no_rows.
  - now apply Fill_MV_fill_no_rows.
Qed.

Lemma no_rows_zero_results_witness :
  Dot_MV_dot (IPT := Z_traits) 64 strided scratch_five r_seven
    (ones 0 3) (ones 0 3) 2 = 0
  /\ Nrm2_MV_nrm2_squared (IPT := Z_traits) 64 strided scratch_five r_seven
       (ones 0 3) 2 = 0
  /\ Fill_MV_fill 64 strided (ones 0 3) 9 = ones 0 3.
Proof.
  apply (no_rows_zero_results Z_traits 64 strided scratch_five r_seven
           scratch_five r_seven (ones 0 3) (ones 0 3) 9 2);
    [ lia | reflexivity | reflexivity | apply strided_partitions
    | reflexivity | cbn; lia | cbn; lia ].
Defined.

(* ================================================================== *)
(** * The elements that dot reads *)
(* ================================================================== *)

(** X18.  [dot] takes the shape from [X] alone and reads no element
    outside it: two pairs of multivectors whose first components have
    the same shape and which agree on every element inside that shape
    give the same result, whatever the shape of the second components
    and whatever is stored outside. *)
Theorem dot_reads_only_inside_the_shape {xvalue_type : Type}
    (IPT : InnerProductSpaceTraits xvalue_type) (w : Z) (sched : scheduler)
    (scratch r : Z -> dot_type) (X Y X' Y' : View2 xvalue_type) (k : Z) :
  0 <= dimension_0 X < 2 ^ w ->
  0 <= dimension_1 X < 2 ^ w ->
  partitions sched (rows_of X) ->
  dimension_0 X' = dimension_0 X ->
  dimension_1 X' = dimension_1 X ->
  (forall i j, 0 <= i < dimension_0 X -> 0 <= j < dimension_1 X ->
               elem X' i j = elem X i j /\ elem Y' i j = elem Y i j) ->
  Dot_MV_dot w sched scratch r X' Y' k = Dot_MV_dot w sched scratch r X Y k.
Proof.
  intros Hrows Hcols Hp Hrows' Hcols' Hagree.
  rewrite !(Dot_MV_dot_column w);
    unfold rows_of in *; rewrite ?Hrows', ?Hcols'; try assumption.
  unfold in_range.
  destruct (Z.leb_spec 0 k), (Z.ltb_spec k (dimension_1 X)); cbn [andb];
    try reflexivity.
  apply tree_sum_ext. intros i Hi.
  apply (partitions_range sched 0 (dimension_0 X) i Hp) in Hi.
  destruct (Hagree i k Hi ltac:(lia)) as [-> ->]. reflexivity.
Qed.

Lemma dot_reads_only_inside_the_shape_witness :
  Dot_MV_dot (IPT := Z_traits) 64 strided scratch_five r_seven
    (view_of_rows 8 3 2 [[1; 2]; [3; 4]; [5; 6]])
    (view_of_rows 8 4 5 [[1; 0; 7]; [0; 1; 7]; [1; 1; 7]; [7; 7; 7]]) 1
  = Dot_MV_dot (IPT := Z_traits) 64 strided scratch_five r_seven
      X_example Y_example 1.
Proof.
  apply (dot_reads_only_inside_the_shape Z_traits 64);
    [ cbn; lia | cbn; lia | apply strided_partitions | reflexivity | reflexivity | ].
  cbn [X_example view_of_rows dimension_0 dimension_1].
  intros i j Hi Hj.
  assert (Hcases : (i = 0 \/ i = 1 \/ i = 2) /\ (j = 0 \/ j = 1)) by lia.
  destruct Hcases as [[-> | [-> | ->]] [-> | ->]]; split; reflexivity.
Defined.
